(** * gscli: credential lifecycle of [src/lib/accounts.ts] and [src/lib/auth.ts]

    A shallow embedding of the multi-account credential store
    ([accounts.ts]), of the client-credential resolver, the session
    provider and the login flow ([auth.ts]), followed by the properties
    of the written specification that concern them.

    Conventions of the embedding.
    - A JavaScript object used as a map is the association list of its
      own properties, in the order [Object.keys] reports it.  A property
      read [o[k]] finds an own property, else the member of that name
      inherited from [Object.prototype] ([toString], [constructor],
      ...): the keys that are looked up come from the command line.
      The keys that are written are the e-mail addresses the identity
      endpoint reports; the special order of integer-like keys and an
      assignment to the key [__proto__] are outside the model.
    - A JSON file on disk is represented by what [JSON.parse] makes of
      its text, at the TypeScript type the source casts it to
      ([... as AccountsConfig]).  A text on which [readFileSync] or
      [JSON.parse] throws is [Corrupt], with the exception's message.
    - [if (x)] on a string is JavaScript truthiness: [undefined] and the
      empty string are falsy; on a number, [0] is falsy.
    - Exceptions do not roll the world back: a computation returns its
      outcome together with the world it leaves behind.
    - [writeFileSync] and [mkdirSync] succeed, and what
      [JSON.stringify] writes, [JSON.parse] reads back. *)

From Stdlib Require Import String Ascii List ZArith Bool Lia.
From Stdlib Require DecimalString.
Import ListNotations.
Open Scope string_scope.

(* ================================================================== *)
(** ** JavaScript values used by the sources *)

(** The double-quote character, for messages that contain it. *)
Definition dq : string := String (ascii_of_nat 34) EmptyString.

(** Truthiness of a [string]. *)
Definition truthy (s : string) : bool :=
  match s with
  | EmptyString => false
  | String _ _ => true
  end.

(** Truthiness of a [string | undefined]. *)
Definition truthy_opt (o : option string) : bool :=
  match o with
  | Some s => truthy s
  | None => false
  end.

(** Truthiness of a [number]. *)
Definition truthy_num (n : Z) : bool := negb (n =? 0)%Z.

(** [a || b] on [string | undefined] operands. *)
Definition or_else (a : option string) (b : string) : string :=
  match a with
  | Some s => if truthy s then s else b
  | None => b
  end.

(** Own properties of a plain object, in [Object.keys] order. *)
Definition object (V : Type) : Type := list (string * V).

Definition Object_keys {V} (o : object V) : list string := map fst o.

(** The own property [k] of [o], if it has one. *)
Fixpoint get_prop {V} (k : string) (o : object V) : option V :=
  match o with
  | [] => None
  | (k', v) :: rest => if String.eqb k k' then Some v else get_prop k rest
  end.

(** [o[k] = v]: an existing key keeps its position, a new one goes last. *)
Fixpoint set_prop {V} (k : string) (v : V) (o : object V) : object V :=
  match o with
  | [] => [(k, v)]
  | (k', v') :: rest =>
      if String.eqb k k' then (k', v) :: rest else (k', v') :: set_prop k v rest
  end.

(** [delete o[k]] *)
Definition delete_prop {V} (k : string) (o : object V) : object V :=
  filter (fun kv => negb (String.eqb k (fst kv))) o.

(** The property names of [Object.prototype], which every plain object
    inherits.  Each holds a function, [__proto__] the prototype itself:
    all are truthy, none has an enumerable own property, and none has a
    field of the records stored in the objects below. *)
Definition Object_prototype : list string :=
  [ "constructor"; "hasOwnProperty"; "isPrototypeOf"; "propertyIsEnumerable";
    "toLocaleString"; "toString"; "valueOf"; "__proto__";
    "__defineGetter__"; "__defineSetter__";
    "__lookupGetter__"; "__lookupSetter__" ].

Definition inherited (k : string) : bool :=
  existsb (String.eqb k) Object_prototype.

(** What a property read finds: an own property of the object, or a
    member inherited from [Object.prototype]. *)
Inductive member (V : Type) :=
| Own (v : V)
| Inherited (name : string).
Arguments Own {V} v.
Arguments Inherited {V} name.

(** [o[k]]; [None] is [undefined]. *)
Definition lookup {V} (k : string) (o : object V) : option (member V) :=
  match get_prop k o with
  | Some v => Some (Own v)
  | None => if inherited k then Some (Inherited k) else None
  end.

(** [`${n}`] for a non-negative integer. *)
Definition show_nat (n : nat) : string :=
  DecimalString.NilZero.string_of_uint (Nat.to_uint n).

(** [hay.includes(needle)] *)
Fixpoint includes (needle hay : string) : bool :=
  if String.prefix needle hay then true
  else match hay with
       | EmptyString => false
       | String _ rest => includes needle rest
       end.

(** A line break inside a template literal. *)
Definition nl : string := String (ascii_of_nat 10) EmptyString.

(* ================================================================== *)
(** ** Data model *)

(** [interface AccountCredentials] (accounts.ts) *)
Record AccountCredentials := {
  email : string;
  client_id : string;
  client_secret : string;
  access_token : string;
  refresh_token : string;
  scope : string;
  token_type : string;
  expiry_date : Z
}.

(** [interface AccountsConfig] (accounts.ts) *)
Record AccountsConfig := {
  default_account : option string;
  accounts : object AccountCredentials
}.

(** [{ accounts: {} }] *)
Definition empty_config : AccountsConfig :=
  {| default_account := None; accounts := [] |}.

(** [interface Credentials] (auth.ts): the single-account file of earlier
    versions, [~/.config/gscli/credentials.json]. *)
Module Legacy.
Record Credentials := {
  client_id : option string;
  client_secret : option string;
  access_token : string;
  refresh_token : string;
  scope : string;
  token_type : string;
  expiry_date : Z
}.
End Legacy.

(** The token set the OAuth library hands out ([getToken],
    [refreshAccessToken]) and binds to a client ([setCredentials]).  The
    source reads every field but [refresh_token] with a non-null
    assertion. *)
Module Token.
Record t := {
  access_token : string;
  refresh_token : option string;
  scope : string;
  token_type : string;
  expiry_date : Z
}.
End Token.

(** [google.auth.OAuth2]: the client handle the API wrappers receive.
    [client_id] and [client_secret] are [None] when the constructor was
    given [undefined]; [credentials] is [None] when no token field of
    the client is defined, as in the [{}] of a new client. *)
Module OAuth2.
Record t := {
  client_id : option string;
  client_secret : option string;
  redirect_uri : string;
  credentials : option Token.t
}.

(** [new google.auth.OAuth2(id, secret, redirect)] *)
Definition new (id secret : option string) (redirect : string) : t :=
  {| client_id := id; client_secret := secret;
     redirect_uri := redirect; credentials := None |}.

(** [client.setCredentials(c)] *)
Definition setCredentials (c : t) (tok : Token.t) : t :=
  {| client_id := client_id c; client_secret := client_secret c;
     redirect_uri := redirect_uri c; credentials := Some tok |}.
End OAuth2.

(** A client-registration file as the resolver probes it: a flat object,
    or one nested under [installed] or [web]. *)
Module ClientFile.
Record fields := {
  client_id : option string;
  client_secret : option string
}.
Record t := {
  installed : option fields;
  web : option fields;
  flat : fields
}.
End ClientFile.

(** The app-level credential the resolver returns. *)
Record AppClientCredential := {
  app_client_id : string;
  app_client_secret : string
}.

(* ================================================================== *)
(** ** Errors *)

(** The names of the specification's failure taxonomy (section 7), and
    two more for throw sites it does not name. *)
Inductive error_kind :=
| ConfigurationError
| InvalidCredentialFormat
| ClientFileError
| MissingAuthorizationCode
| TokenExchangeFailed
| MissingRefreshToken
| AuthenticationTimeout
| IdentityLookupError
| AccountNotFound
| NoAccountsConfigured
| TokenRefreshFailed
| MalformedRequest.

(** [new Error(message)], tagged with the failure it stands for. *)
Record error := Error {
  kind : error_kind;
  message : string
}.

(* ================================================================== *)
(** ** The world outside the process *)

Inductive file (A : Type) :=
| Missing
| Corrupt (reason : string)
| Json (v : A).
Arguments Missing {A}.
Arguments Corrupt {A} reason.
Arguments Json {A} v.

(** [existsSync(path)] *)
Definition existsSync {A} (f : file A) : bool :=
  match f with
  | Missing => false
  | _ => true
  end.

(** The files the two modules touch.  [writes] records every
    [writeFileSync] in order, [mkdirs] every [mkdirSync]. *)
Record disk := {
  config_dir : bool;
  accounts_json : file AccountsConfig;
  credentials_json : file Legacy.Credentials;
  client_files : string -> file ClientFile.t;
  writes : list AccountsConfig;
  mkdirs : nat
}.

(** Calls that leave the process. *)
Inductive call :=
| RefreshAccessToken (client : OAuth2.t)
| GetToken (client : OAuth2.t) (code : string)
| FetchUserinfo (accessToken : string).

Record world := {
  fs : disk;
  GOOGLE_CLIENT_CREDENTIAL_FILE : option string;
  cwd : string;
  calls : list call
}.

Definition with_fs (w : world) (d : disk) : world :=
  {| fs := d;
     GOOGLE_CLIENT_CREDENTIAL_FILE := GOOGLE_CLIENT_CREDENTIAL_FILE w;
     cwd := cwd w;
     calls := calls w |}.

Definition with_call (w : world) (c : call) : world :=
  {| fs := fs w;
     GOOGLE_CLIENT_CREDENTIAL_FILE := GOOGLE_CLIENT_CREDENTIAL_FILE w;
     cwd := cwd w;
     calls := calls w ++ [c] |}.

(* ================================================================== *)
(** ** Computations that read and write the world and may throw *)

Definition M (A : Type) : Type := world -> (error + A) * world.

Definition ret {A} (a : A) : M A := fun w => (inr a, w).

Definition bind {A B} (m : M A) (f : A -> M B) : M B :=
  fun w =>
    match m w with
    | (inr a, w') => f a w'
    | (inl e, w') => (inl e, w')
    end.

Definition throw {A} (e : error) : M A := fun w => (inl e, w).

(** [try { m } catch (error) { h error }] *)
Definition try_catch {A} (m : M A) (h : error -> M A) : M A :=
  fun w =>
    match m w with
    | (inl e, w') => h e w'
    | r => r
    end.

(** Read the world without changing it. *)
Definition gets {A} (f : world -> A) : M A := fun w => (inr (f w), w).

Declare Scope js_scope.
Delimit Scope js_scope with js.
Notation "x <- m ;; k" := (bind m (fun x => k))
  (at level 61, m at next level, right associativity) : js_scope.
Notation "m ;;; k" := (bind m (fun _ => k))
  (at level 61, right associativity) : js_scope.
Open Scope js_scope.

(* ================================================================== *)
(** ** accounts.ts *)

(** [loadAccountsConfig()] *)
Definition loadAccountsConfig (w : world) : AccountsConfig :=
  match accounts_json (fs w) with
  | Missing => empty_config
  | Corrupt _ => empty_config
  | Json config => config
  end.

(** [saveAccountsConfig(config)] *)
Definition saveAccountsConfig (config : AccountsConfig) : M unit :=
  fun w =>
    let d := fs w in
    (inr tt,
     with_fs w
       {| config_dir := true;
          accounts_json := Json config;
          credentials_json := credentials_json d;
          client_files := client_files d;
          writes := writes d ++ [config];
          mkdirs := if config_dir d then mkdirs d else S (mkdirs d) |}).

(** [saveAccount(credentials)] *)
Definition saveAccount (credentials : AccountCredentials) : M unit :=
  config <- gets loadAccountsConfig ;;
  let accounts' := set_prop (email credentials) credentials (accounts config) in
  let default' :=
    if negb (truthy_opt (default_account config))
    then Some (email credentials)
    else default_account config in
  saveAccountsConfig {| default_account := default'; accounts := accounts' |}.

(** [getAccount(email?)]: its result is typed
    [AccountCredentials | null]; what [config.accounts[email] || null]
    returns is the stored record, or an inherited member, or [null]. *)
Definition getAccount (email : option string) (w : world)
  : option (member AccountCredentials) :=
  let config := loadAccountsConfig w in
  if truthy_opt email then
    match email with
    | Some e => lookup e (accounts config)
    | None => None
    end
  else if truthy_opt (default_account config) then
    match default_account config with
    | Some d => lookup d (accounts config)
    | None => None
    end
  else
    match Object_keys (accounts config) with
    | first :: _ => lookup first (accounts config)
    | [] => None
    end.

(** [listAccounts()] *)
Definition listAccounts (w : world) : list (string * bool) :=
  let config := loadAccountsConfig w in
  map (fun email =>
         (email,
          match default_account config with
          | Some d => String.eqb email d
          | None => false
          end))
      (Object_keys (accounts config)).

(** [setDefaultAccount(email)] *)
Definition setDefaultAccount (email : string) : M unit :=
  config <- gets loadAccountsConfig ;;
  match lookup email (accounts config) with
  | None => throw (Error AccountNotFound ("Account not found: " ++ email))
  | Some _ =>
      saveAccountsConfig
        {| default_account := Some email; accounts := accounts config |}
  end.

(** [removeAccount(email)]; [delete] removes an own property only. *)
Definition removeAccount (email : string) : M unit :=
  config <- gets loadAccountsConfig ;;
  match lookup email (accounts config) with
  | None => throw (Error AccountNotFound ("Account not found: " ++ email))
  | Some _ =>
      let accounts' := delete_prop email (accounts config) in
      let default' :=
        match default_account config with
        | Some d =>
            if String.eqb d email then
              match Object_keys accounts' with
              | first :: _ => Some first
              | [] => None
              end
            else Some d
        | None => None
        end in
      saveAccountsConfig {| default_account := default'; accounts := accounts' |}
  end.

(* ================================================================== *)
(** ** External collaborators of auth.ts

    The OAuth library, the identity endpoint, the URL parser and the
    clock are not part of the repository; every property below holds
    for all of their possible behaviours. *)

(** What [fetch(userinfo)] followed by [response.json()] delivers. *)
Inductive userinfo_reply :=
| FetchThrows (reason : string)
| NotOk (status : nat) (errorText : string)
| Ok (data_email : option string).

Record Oracle := {
  (** [Date.now()] *)
  Date_now : Z;
  (** [oauth2Client.refreshAccessToken()]: an exception's message, or
      the credentials of the response *)
  refreshAccessToken : OAuth2.t -> string + Token.t;
  (** [oauth2Client.getToken(code)] *)
  getToken : OAuth2.t -> string -> string + Token.t;
  (** the identity endpoint, given the bearer token *)
  fetch_userinfo : string -> userinfo_reply;
  (** [new URL(url, base).searchParams]: the exception's message when
      the constructor throws, else the query parameters in order *)
  URL_searchParams : string -> string + object string
}.

(** [getUserEmail(accessToken)] (accounts.ts) *)
Definition getUserEmail (O : Oracle) (accessToken : string) : M string :=
  try_catch
    (fun w =>
       let w' := with_call w (FetchUserinfo accessToken) in
       match fetch_userinfo O accessToken with
       | FetchThrows reason => (inl (Error IdentityLookupError reason), w')
       | NotOk status errorText =>
           (inl (Error IdentityLookupError
                   ("API responded with " ++ show_nat status ++ ": " ++ errorText)),
            w')
       | Ok data_email =>
           match data_email with
           | Some e =>
               if truthy e then (inr e, w')
               else (inl (Error IdentityLookupError
                            "Email not found in user info response"), w')
           | None =>
               (inl (Error IdentityLookupError
                       "Email not found in user info response"), w')
           end
       end)
    (fun error =>
       throw (Error IdentityLookupError
                ("Failed to fetch user email: " ++ message error))).

(* ================================================================== *)
(** ** auth.ts: the client credential resolver *)

Definition REDIRECT_URI : string := "http://127.0.0.1:8080".

(** [DEFAULT_CLIENT_CONFIG_PATH = join(process.cwd(), 'client.json')] *)
Definition DEFAULT_CLIENT_CONFIG_PATH (w : world) : string :=
  cwd w ++ "/client.json".

(** [loadStoredCredentials()] *)
Definition loadStoredCredentials (w : world) : option Legacy.Credentials :=
  match credentials_json (fs w) with
  | Missing => None
  | Corrupt _ => None
  | Json c => Some c
  end.

(** [credentials.installed || credentials.web || credentials] *)
Definition unwrap (credentials : ClientFile.t) : ClientFile.fields :=
  match ClientFile.installed credentials with
  | Some c => c
  | None =>
      match ClientFile.web credentials with
      | Some c => c
      | None => ClientFile.flat credentials
      end
  end.

Definition invalid_format : error :=
  Error InvalidCredentialFormat
        "Invalid credentials format: missing client_id or client_secret".

(** The body both file branches share: read, parse, unwrap, check the
    two fields, return [creds].  Both branches ask [existsSync] first,
    so the first case is there for completeness only. *)
Definition read_client_file (f : file ClientFile.t)
  : error + AppClientCredential :=
  match f with
  | Missing => inl (Error ClientFileError "ENOENT: no such file or directory")
  | Corrupt reason => inl (Error ClientFileError reason)
  | Json credentials =>
      let creds := unwrap credentials in
      match ClientFile.client_id creds, ClientFile.client_secret creds with
      | Some id, Some secret =>
          if truthy id && truthy secret
          then inr {| app_client_id := id; app_client_secret := secret |}
          else inl invalid_format
      | _, _ => inl invalid_format
      end
  end.

(** The closing message of [loadClientCredentials]. *)
Definition not_found_message (credentialPath : string) : string :=
  nl ++ "Google OAuth2 client credentials not found!" ++ nl
  ++ nl ++ "Please provide credentials using one of these methods:" ++ nl
  ++ nl ++ "1. During auth login (saves credentials for future use):" ++ nl
  ++ "   gscli auth login --client /path/to/client.json" ++ nl
  ++ nl ++ "2. Environment Variable:" ++ nl
  ++ "   export GOOGLE_CLIENT_CREDENTIAL_FILE="
  ++ dq ++ "/path/to/your/client.json" ++ dq ++ nl
  ++ nl ++ "3. Local File:" ++ nl
  ++ "   Create a file named " ++ dq ++ "client.json" ++ dq
  ++ " in the current directory" ++ nl
  ++ nl ++ "To get credentials:" ++ nl
  ++ "1. Go to https://console.cloud.google.com/apis/credentials" ++ nl
  ++ "2. Create OAuth 2.0 Client ID (Desktop app)" ++ nl
  ++ "3. Download the JSON file" ++ nl
  ++ nl ++ "Current search path: " ++ credentialPath ++ nl ++ "  ".

(** Step 1 of [loadClientCredentials]: the app credential saved in
    [credentials.json], when that file has both fields. *)
Definition saved_client_credentials (w : world) : option AppClientCredential :=
  match loadStoredCredentials w with
  | Some storedCredentials =>
      match Legacy.client_id storedCredentials,
            Legacy.client_secret storedCredentials with
      | Some id, Some secret =>
          if truthy id && truthy secret
          then Some {| app_client_id := id; app_client_secret := secret |}
          else None
      | _, _ => None
      end
  | None => None
  end.

(** [loadClientCredentials(clientPath?)] *)
Definition loadClientCredentials (clientPath : option string) (w : world)
  : error + AppClientCredential :=
  match saved_client_credentials w with
  | Some creds => inr creds
  | None =>
      if truthy_opt clientPath then
        let clientPath := or_else clientPath EmptyString in
        let attempt :=
          if existsSync (client_files (fs w) clientPath)
          then read_client_file (client_files (fs w) clientPath)
          else inl (Error ClientFileError
                      ("Client file not found: " ++ clientPath)) in
        match attempt with
        | inr creds => inr creds
        | inl error =>
            inl (Error (kind error)
                   ("Failed to load client credentials from " ++ clientPath
                    ++ ": " ++ message error))
        end
      else
        let envPath := GOOGLE_CLIENT_CREDENTIAL_FILE w in
        let credentialPath := or_else envPath (DEFAULT_CLIENT_CONFIG_PATH w) in
        let not_found :=
          inl (Error ConfigurationError (not_found_message credentialPath)) in
        if existsSync (client_files (fs w) credentialPath) then
          match read_client_file (client_files (fs w) credentialPath) with
          | inr creds => inr creds
          | inl error =>
              if includes "Invalid credentials format" (message error)
              then inl error
              else not_found
          end
        else not_found
  end.

(** [createOAuth2Client(clientPath?)] *)
Definition createOAuth2Client (clientPath : option string) (w : world)
  : error + OAuth2.t :=
  match loadClientCredentials clientPath w with
  | inl e => inl e
  | inr clientConfig =>
      inr (OAuth2.new (Some (app_client_id clientConfig))
                      (Some (app_client_secret clientConfig)) REDIRECT_URI)
  end.

(** [isAuthenticated()] *)
Definition isAuthenticated (w : world) : bool :=
  match loadStoredCredentials w with
  | Some _ => true
  | None => false
  end.

(* ================================================================== *)
(** ** auth.ts: the session provider *)

(** The token fields of a stored account, as passed to
    [setCredentials]. *)
Definition stored_tokens (account : AccountCredentials) : Token.t :=
  {| Token.access_token := access_token account;
     Token.refresh_token := Some (refresh_token account);
     Token.scope := scope account;
     Token.token_type := token_type account;
     Token.expiry_date := expiry_date account |}.

(** [{ ...account, access_token: credentials.access_token!, ... }] *)
Definition updatedAccount (account : AccountCredentials)
           (credentials : Token.t) : AccountCredentials :=
  {| email := email account;
     client_id := client_id account;
     client_secret := client_secret account;
     access_token := Token.access_token credentials;
     refresh_token :=
       or_else (Token.refresh_token credentials) (refresh_token account);
     scope := Token.scope credentials;
     token_type := Token.token_type credentials;
     expiry_date := Token.expiry_date credentials |}.

(** [await oauth2Client.refreshAccessToken()] *)
Definition call_refreshAccessToken (O : Oracle) (client : OAuth2.t)
  : M Token.t :=
  fun w =>
    let w' := with_call w (RefreshAccessToken client) in
    match refreshAccessToken O client with
    | inl reason => (inl (Error TokenRefreshFailed reason), w')
    | inr credentials => (inr credentials, w')
    end.

(** [account.expiry_date && account.expiry_date < Date.now()] *)
Definition needs_refresh (O : Oracle) (account : AccountCredentials) : bool :=
  truthy_num (expiry_date account) && (expiry_date account <? Date_now O)%Z.

(** [getAuthenticatedClient(accountEmail?)] *)
Definition getAuthenticatedClient (O : Oracle) (accountEmail : option string)
  : M OAuth2.t :=
  account <- gets (getAccount accountEmail) ;;
  match account with
  | None =>
      if truthy_opt accountEmail then
        throw (Error AccountNotFound
                 ("Account not found: " ++ or_else accountEmail EmptyString
                  ++ ". Run " ++ dq ++ "gscli auth list" ++ dq
                  ++ " to see available accounts."))
      else
        throw (Error NoAccountsConfigured
                 ("No authenticated accounts found. Please run "
                  ++ dq ++ "gscli auth login" ++ dq ++ " first."))
  | Some (Inherited _) =>
      (* [account] is a function of [Object.prototype], or the prototype
         itself: [account.client_id] and every other field read from it
         is [undefined], so the client gets no id, no secret and no
         token, and the falsy [account.expiry_date] skips the refresh *)
      ret (OAuth2.new None None REDIRECT_URI)
  | Some (Own account) =>
      let oauth2Client :=
        OAuth2.setCredentials
          (OAuth2.new (Some (client_id account)) (Some (client_secret account))
                      REDIRECT_URI)
          (stored_tokens account) in
      if needs_refresh O account then
        try_catch
          (credentials <- call_refreshAccessToken O oauth2Client ;;
           saveAccount (updatedAccount account credentials) ;;;
           ret (OAuth2.setCredentials oauth2Client credentials))
          (fun _ =>
             throw (Error TokenRefreshFailed
                      ("Failed to refresh access token for " ++ email account
                       ++ ". Please re-authenticate with "
                       ++ dq ++ "gscli auth login" ++ dq ++ ".")))
      else ret oauth2Client
  end.

(* ================================================================== *)
(** ** auth.ts: the login flow

    [authenticate] creates one promise, one HTTP server and one timer.
    The request handler is an [async] function: it runs until its next
    [await], gives control back to the event loop, and is resumed when
    the awaited call completes.  Between two such slices the timer
    callback or another request's handler may run.  The flow is
    therefore a state machine whose transitions are the slices.  An
    awaited call is accounted for when it completes.  Requests are
    accepted at any time, which covers those on connections opened
    before [server.close]. *)

Inductive settled :=
| Resolved
| Rejected (e : error).

(** The state of [timeoutId]. *)
Inductive timer :=
| Armed
| Cleared
| Fired.

(** A handler suspended at an [await]. *)
Inductive suspended :=
| AwaitGetToken (code : string)
| AwaitGetUserEmail (tokens : Token.t).

(** [res.writeHead(status, ...); res.end(body)] *)
Record response := {
  status : nat;
  body : string
}.

(** The two constants [authenticate] computes before it creates the
    promise; the handler closes over them. *)
Record closure := {
  clientConfig : AppClientCredential;
  oauth2Client : OAuth2.t
}.

Record flow := {
  captured : closure;
  (** [None] while the promise is pending *)
  promise : option settled;
  timeoutId : timer;
  (** how many times [server.close] has been called *)
  close_calls : nat;
  (** how many [() => resolve()] callbacks wait for the server's
      [close] event *)
  on_close : nat;
  (** the answers sent so far, oldest first *)
  sent : list response;
  (** handlers waiting for an awaited call, oldest first *)
  inflight : list suspended;
  outside : world
}.

(** What a slice does to the flow, one source statement each. *)
Definition respond (r : response) (st : flow) : flow :=
  {| captured := captured st; promise := promise st;
     timeoutId := timeoutId st; close_calls := close_calls st;
     on_close := on_close st;
     sent := sent st ++ [r]; inflight := inflight st;
     outside := outside st |}.

(** [clearTimeout(timeoutId)]: a timer that already ran stays as it is. *)
Definition clearTimeout (st : flow) : flow :=
  {| captured := captured st; promise := promise st;
     timeoutId := match timeoutId st with Armed => Cleared | t => t end;
     close_calls := close_calls st; on_close := on_close st;
     sent := sent st; inflight := inflight st;
     outside := outside st |}.

(** [server.close()] *)
Definition server_close (st : flow) : flow :=
  {| captured := captured st; promise := promise st;
     timeoutId := timeoutId st; close_calls := S (close_calls st);
     on_close := on_close st;
     sent := sent st; inflight := inflight st;
     outside := outside st |}.

(** [server.close(() => { resolve(); })]: the callback runs when the
    server emits [close], not before. *)
Definition server_close_then_resolve (st : flow) : flow :=
  {| captured := captured st; promise := promise st;
     timeoutId := timeoutId st; close_calls := S (close_calls st);
     on_close := S (on_close st);
     sent := sent st; inflight := inflight st;
     outside := outside st |}.

(** [resolve()] and [reject(e)]: a promise settles once, later calls are
    ignored. *)
Definition settle (o : settled) (st : flow) : flow :=
  {| captured := captured st;
     promise := match promise st with None => Some o | p => p end;
     timeoutId := timeoutId st; close_calls := close_calls st;
     on_close := on_close st;
     sent := sent st; inflight := inflight st;
     outside := outside st |}.

Definition suspend (s : suspended) (st : flow) : flow :=
  {| captured := captured st; promise := promise st;
     timeoutId := timeoutId st; close_calls := close_calls st;
     on_close := on_close st;
     sent := sent st; inflight := inflight st ++ [s];
     outside := outside st |}.

Definition set_inflight (l : list suspended) (st : flow) : flow :=
  {| captured := captured st; promise := promise st;
     timeoutId := timeoutId st; close_calls := close_calls st;
     on_close := on_close st;
     sent := sent st; inflight := l;
     outside := outside st |}.

Definition set_outside (w : world) (st : flow) : flow :=
  {| captured := captured st; promise := promise st;
     timeoutId := timeoutId st; close_calls := close_calls st;
     on_close := on_close st;
     sent := sent st; inflight := inflight st;
     outside := w |}.

(** The check mark U+2705 that opens the heading of the success page,
    as the three bytes [res.end] sends for it. *)
Definition check_mark : string :=
  String (ascii_of_nat 226)
    (String (ascii_of_nat 156) (String (ascii_of_nat 133) EmptyString)).

(** The pages the handler can answer with. *)
Definition page_no_code : response :=
  {| status := 400; body := "<h1>Error: No authorization code received</h1>" |}.

Definition page_no_refresh_token : response :=
  {| status := 400; body := "<h1>Error: No refresh token received</h1>" |}.

Definition page_error : response :=
  {| status := 500; body := "<h1>Error during authentication</h1>" |}.

Definition page_success : response :=
  {| status := 200;
     body :=
       nl ++ "              <html>" ++ nl
       ++ "                <head><title>Authentication Successful</title></head>" ++ nl
       ++ "                <body style=" ++ dq
       ++ "font-family: sans-serif; text-align: center; padding: 50px;" ++ dq
       ++ ">" ++ nl
       ++ "                  <h1 style=" ++ dq ++ "color: #4CAF50;" ++ dq
       ++ ">" ++ check_mark ++ " Authentication Successful!</h1>" ++ nl
       ++ "                  <p>You can now close this window and return to your terminal.</p>" ++ nl
       ++ "                </body>" ++ nl
       ++ "              </html>" ++ nl
       ++ "            " |}.

(** [catch (error) { ... }] of the handler *)
Definition on_catch (error : error) (st : flow) : flow :=
  settle (Rejected error)
    (server_close (clearTimeout (respond page_error st))).

(** The two early exits: answer 400, [clearTimeout], [server.close()],
    [reject(new Error(...))], [return]. *)
Definition bail_out (page : response) (e : error) (st : flow) : flow :=
  settle (Rejected e) (server_close (clearTimeout (respond page st))).

Definition no_code_error : error :=
  Error MissingAuthorizationCode "No authorization code received".

Definition no_refresh_token_error : error :=
  Error MissingRefreshToken "No refresh token received".

Definition timeout_error : error :=
  Error AuthenticationTimeout "Authentication timeout (5 minutes)".

(** The handler from its first statement to [await getToken(code)]. *)
Definition on_request (O : Oracle) (url : option string) (st : flow) : flow :=
  match url with
  | Some url =>
      if truthy url && negb (String.eqb url "/favicon.ico") then
        match URL_searchParams O url with
        | inl reason => on_catch (Error MalformedRequest reason) st
        | inr searchParams =>
            match get_prop "code" searchParams with
            | Some code =>
                if truthy code
                then suspend (AwaitGetToken code) st
                else bail_out page_no_code no_code_error st
            | None => bail_out page_no_code no_code_error st
            end
        end
      else st
  | None => st
  end.

(** [accountCredentials] as [authenticate] builds it *)
Definition accountCredentials (c : closure) (userEmail : string)
           (tokens : Token.t) : AccountCredentials :=
  {| email := userEmail;
     client_id := app_client_id (clientConfig c);
     client_secret := app_client_secret (clientConfig c);
     access_token := Token.access_token tokens;
     refresh_token := or_else (Token.refresh_token tokens) EmptyString;
     scope := Token.scope tokens;
     token_type := Token.token_type tokens;
     expiry_date := Token.expiry_date tokens |}.

(** The handler from the completion of [getToken] to
    [await getUserEmail(...)]. *)
Definition after_getToken (O : Oracle) (code : string) (st : flow) : flow :=
  let st := set_outside
              (with_call (outside st) (GetToken (oauth2Client (captured st)) code))
              st in
  match getToken O (oauth2Client (captured st)) code with
  | inl reason => on_catch (Error TokenExchangeFailed reason) st
  | inr tokens =>
      if truthy_opt (Token.refresh_token tokens)
      then suspend (AwaitGetUserEmail tokens) st
      else bail_out page_no_refresh_token no_refresh_token_error st
  end.

(** The handler from the completion of [getUserEmail] to its end. *)
Definition after_getUserEmail (O : Oracle) (tokens : Token.t) (st : flow)
  : flow :=
  match getUserEmail O (Token.access_token tokens) (outside st) with
  | (inl error, w) => on_catch error (set_outside w st)
  | (inr userEmail, w) =>
      match saveAccount (accountCredentials (captured st) userEmail tokens) w with
      | (inl error, w') => on_catch error (set_outside w' st)
      | (inr _, w') =>
          server_close_then_resolve
            (clearTimeout (respond page_success (set_outside w' st)))
      end
  end.

(** Dropping the [i]-th element. *)
Fixpoint drop_nth {A} (i : nat) (l : list A) : list A :=
  match l, i with
  | [], _ => []
  | _ :: rest, O => rest
  | x :: rest, S j => x :: drop_nth j rest
  end.

(** The [i]-th suspended handler is resumed. *)
Definition on_completion (O : Oracle) (i : nat) (st : flow) : flow :=
  match nth_error (inflight st) i with
  | None => st
  | Some s =>
      let st := set_inflight (drop_nth i (inflight st)) st in
      match s with
      | AwaitGetToken code => after_getToken O code st
      | AwaitGetUserEmail tokens => after_getUserEmail O tokens st
      end
  end.

(** The [setTimeout] callback; a cleared timer never runs, and a timer
    runs once. *)
Definition on_timeout (st : flow) : flow :=
  match timeoutId st with
  | Armed =>
      settle (Rejected timeout_error)
        (server_close
           {| captured := captured st; promise := promise st;
              timeoutId := Fired; close_calls := close_calls st;
              on_close := on_close st;
              sent := sent st; inflight := inflight st;
              outside := outside st |})
  | _ => st
  end.

(** The server's [close] event: the registered callbacks run, each
    calls [resolve()]. *)
Definition on_closed (st : flow) : flow :=
  match on_close st with
  | O => st
  | S _ =>
      settle Resolved
        {| captured := captured st; promise := promise st;
           timeoutId := timeoutId st; close_calls := close_calls st;
           on_close := 0;
           sent := sent st; inflight := inflight st;
           outside := outside st |}
  end.

(** What the event loop can deliver to the flow. *)
Inductive event :=
| Request (url : option string)
| Completion (i : nat)
| Timeout
| Closed.

Definition step (O : Oracle) (st : flow) (e : event) : flow :=
  match e with
  | Request url => on_request O url st
  | Completion i => on_completion O i st
  | Timeout => on_timeout st
  | Closed => on_closed st
  end.

Definition run (O : Oracle) (es : list event) (st : flow) : flow :=
  fold_left (step O) es st.

(** The flow right after [server.listen] and [setTimeout]. *)
Definition listening (c : closure) (w : world) : flow :=
  {| captured := c; promise := None; timeoutId := Armed; close_calls := 0;
     on_close := 0; sent := []; inflight := []; outside := w |}.

(** [authenticate(clientPath?)] up to the creation of the promise: the
    resolver runs twice, once directly and once inside
    [createOAuth2Client]. *)
Definition authenticate (clientPath : option string) (w : world)
  : error + flow :=
  match loadClientCredentials clientPath w with
  | inl e => inl e
  | inr clientConfig =>
      match createOAuth2Client clientPath w with
      | inl e => inl e
      | inr oauth2Client =>
          inr (listening {| clientConfig := clientConfig;
                            oauth2Client := oauth2Client |} w)
      end
  end.

(** [logout()] *)
Definition logout (w : world) : world :=
  let d := fs w in
  with_fs w
    {| config_dir := config_dir d;
       accounts_json := Missing;
       credentials_json := Missing;
       client_files := client_files d;
       writes := writes d;
       mkdirs := mkdirs d |}.

(* ================================================================== *)
(** ** The operations of the store as a command language *)

Inductive op :=
| Save (credentials : AccountCredentials)
| SetDefault (email : string)
| Remove (email : string).

(** One command; a command that throws has written nothing. *)
Definition exec (w : world) (o : op) : world :=
  match o with
  | Save credentials => snd (saveAccount credentials w)
  | SetDefault email => snd (setDefaultAccount email w)
  | Remove email => snd (removeAccount email w)
  end.

Definition exec_all (ops : list op) (w : world) : world :=
  fold_left exec ops w.


(* ================================================================== *)
(** ** Sample data *)

Definition no_files : string -> file ClientFile.t := fun _ => Missing.

Definition mk_world (a : file AccountsConfig) (c : file Legacy.Credentials)
           (files : string -> file ClientFile.t) (env : option string)
  : world :=
  {| fs := {| config_dir := existsSync a || existsSync c;
              accounts_json := a;
              credentials_json := c;
              client_files := files;
              writes := [];
              mkdirs := 0 |};
     GOOGLE_CLIENT_CREDENTIAL_FILE := env;
     cwd := "/work";
     calls := [] |}.

(** A first run: nothing on disk. *)
Definition first_run : world := mk_world Missing Missing no_files None.

Definition account (e : string) (expiry : Z) : AccountCredentials :=
  {| email := e; client_id := "id"; client_secret := "secret";
     access_token := "at-" ++ e; refresh_token := "rt-" ++ e;
     scope := "mail"; token_type := "Bearer"; expiry_date := expiry |}.

Definition alice : AccountCredentials := account "a@x.com" 5000.
Definition bob : AccountCredentials := account "b@x.com" 5000.

(** Two accounts, the first one the default. *)
Definition two_accounts : AccountsConfig :=
  {| default_account := Some "a@x.com";
     accounts := [("a@x.com", alice); ("b@x.com", bob)] |}.

(** A hand-edited store whose default names no stored account. *)
Definition dangling : AccountsConfig :=
  {| default_account := Some "gone@x.com";
     accounts := [("a@x.com", alice)] |}.

Definition fresh_tokens (rt : option string) : Token.t :=
  {| Token.access_token := "at-new"; Token.refresh_token := rt;
     Token.scope := "mail"; Token.token_type := "Bearer";
     Token.expiry_date := 9000 |}.

(** Collaborators that always succeed; the clock reads [now]. *)
Definition obliging (now : Z) (rt : option string) : Oracle :=
  {| Date_now := now;
     refreshAccessToken := fun _ => inr (fresh_tokens rt);
     getToken := fun _ _ => inr (fresh_tokens rt);
     fetch_userinfo := fun _ => Ok (Some "a@x.com");
     URL_searchParams := fun url =>
       if String.eqb url "/" then inr [] else inr [("code", "c0de")] |}.

(** Collaborators whose token endpoint is down. *)
Definition failing (now : Z) : Oracle :=
  {| Date_now := now;
     refreshAccessToken := fun _ => inl "invalid_grant";
     getToken := fun _ _ => inl "invalid_grant";
     fetch_userinfo := fun _ => FetchThrows "offline";
     URL_searchParams := fun url =>
       if String.eqb url "/" then inr [] else inr [("code", "c0de")] |}.

(* ================================================================== *)
(** ** The selection rule as section 4.3 of the specification words it

    What [resolve] yields according to the specification: the account,
    or the failure.  Used only to compare with the code. *)

Definition first_or_none (config : AccountsConfig)
  : error_kind + AccountCredentials :=
  match accounts config with
  | (_, a) :: _ => inr a
  | [] => inl NoAccountsConfigured
  end.

Definition spec_select (config : AccountsConfig) (accountEmail : option string)
  : error_kind + AccountCredentials :=
  match accountEmail with
  | Some e =>
      match get_prop e (accounts config) with
      | Some a => inr a
      | None => inl AccountNotFound
      end
  | None =>
      match default_account config with
      | Some d =>
          match get_prop d (accounts config) with
          | Some a => inr a
          | None => first_or_none config
          end
      | None => first_or_none config
      end
  end.

(** What the code yields, in the same terms: the account
    [getAuthenticatedClient] goes on with, or the kind of the error it
    throws for want of one. *)
Definition code_select (O : Oracle) (w : world) (accountEmail : option string)
  : error_kind + member AccountCredentials :=
  match getAccount accountEmail w with
  | Some a => inr a
  | None =>
      match fst (getAuthenticatedClient O accountEmail w) with
      | inl e => inl (kind e)
      | inr _ => inl NoAccountsConfigured
      end
  end.

(** The client [getAuthenticatedClient] builds before it looks at the
    expiry date. *)
Definition client_of (account : AccountCredentials) : OAuth2.t :=
  OAuth2.setCredentials
    (OAuth2.new (Some (client_id account)) (Some (client_secret account))
                REDIRECT_URI)
    (stored_tokens account).

(** The message of the refresh failure. *)
Definition refresh_failed_message (account : AccountCredentials) : string :=
  "Failed to refresh access token for " ++ email account
  ++ ". Please re-authenticate with " ++ dq ++ "gscli auth login" ++ dq ++ ".".

(** A store with one account whose [expiry_date] is [expiry]. *)
Definition one_account (expiry : Z) : world :=
  mk_world (Json {| default_account := Some "a@x.com";
                    accounts := [("a@x.com", account "a@x.com" expiry)] |})
           Missing no_files None.

(* ================================================================== *)
(** ** The resolution order as section 4.1 of the specification words it

    Four candidates, the first that yields both fields wins.  Used only
    to compare with the code. *)

(** Candidate 1: an app credential embedded in an already-stored
    account of the multi-account store. *)
Definition embedded_in_store (w : world) : option AppClientCredential :=
  match
    filter (fun kv => truthy (client_id (snd kv)) && truthy (client_secret (snd kv)))
           (accounts (loadAccountsConfig w))
  with
  | (_, a) :: _ =>
      Some {| app_client_id := client_id a; app_client_secret := client_secret a |}
  | [] => None
  end.

(** What a candidate file yields. *)
Definition yields (f : file ClientFile.t) : option AppClientCredential :=
  match read_client_file f with
  | inr creds => Some creds
  | inl _ => None
  end.

Definition yields_at (w : world) (path : option string)
  : option AppClientCredential :=
  match path with
  | Some p => yields (client_files (fs w) p)
  | None => None
  end.

Definition first_match {A} (candidates : list (option A)) : option A :=
  fold_right (fun c rest => match c with Some x => Some x | None => rest end)
             None candidates.

Definition spec_resolve (clientPath : option string) (w : world)
  : option AppClientCredential :=
  first_match
    [ embedded_in_store w;
      yields_at w clientPath;
      yields_at w (GOOGLE_CLIENT_CREDENTIAL_FILE w);
      yields_at w (Some (DEFAULT_CLIENT_CONFIG_PATH w)) ].

(** The one file the code consults once step 1 has found nothing. *)
Definition consulted_path (clientPath : option string) (w : world) : string :=
  match clientPath with
  | Some (String c s) => String c s
  | _ =>
      match GOOGLE_CLIENT_CREDENTIAL_FILE w with
      | Some (String c s) => String c s
      | _ => DEFAULT_CLIENT_CONFIG_PATH w
      end
  end.

(** A well-formed client file in the [installed] wrapping. *)
Definition client_json : ClientFile.t :=
  {| ClientFile.installed :=
       Some {| ClientFile.client_id := Some "id";
               ClientFile.client_secret := Some "secret" |};
     ClientFile.web := None;
     ClientFile.flat := {| ClientFile.client_id := None;
                           ClientFile.client_secret := None |} |}.

(** A disk whose only client file is at [path]. *)
Definition only_at (path : string) : string -> file ClientFile.t :=
  fun p => if String.eqb p path then Json client_json else Missing.

(** A legacy file left over from an earlier version, without the app
    credential. *)
Definition leftover : Legacy.Credentials :=
  {| Legacy.client_id := None; Legacy.client_secret := None;
     Legacy.access_token := "at"; Legacy.refresh_token := "rt";
     Legacy.scope := "mail"; Legacy.token_type := "Bearer";
     Legacy.expiry_date := 5000 |}.

(** A callback that carries a code. *)
Definition callback : event := Request (Some "/?code=c0de").

(** The closure of a login with the sample client file. *)
Definition sample_closure : closure :=
  {| clientConfig := {| app_client_id := "id"; app_client_secret := "secret" |};
     oauth2Client := OAuth2.new (Some "id") (Some "secret") REDIRECT_URI |}.

(** The page that answers the request whose handling ends the flow with
    an error of kind [k]; a timeout answers nobody. *)
Definition failure_page (k : error_kind) : list response :=
  match k with
  | MissingAuthorizationCode => [page_no_code]
  | MissingRefreshToken => [page_no_refresh_token]
  | AuthenticationTimeout => []
  | _ => [page_error]
  end.

(** The rendezvous of the handlers and the timer.  While the promise is
    pending, either nothing has happened yet (the timer is armed, the
    server open), or a handler has succeeded, has cleared the timer and
    closed the server, and its [resolve] waits for the [close] event.
    Once the promise is settled, [server.close] has been called, and
    either the timer ran and the outcome is the timeout, or a handler
    got there first and cleared the timer. *)
Definition rendezvous (st : flow) : Prop :=
  match promise st with
  | None =>
      (timeoutId st = Armed /\ close_calls st = 0 /\ on_close st = 0)
      \/ (timeoutId st = Cleared /\ 1 <= close_calls st /\ 1 <= on_close st)
  | Some o =>
      1 <= close_calls st
      /\ ((timeoutId st = Fired /\ o = Rejected timeout_error)
          \/ (timeoutId st = Cleared /\ o <> Rejected timeout_error))
  end.

(** What one slice does to the rendezvous. *)
Inductive effect (st st' : flow) : Prop :=
| Idle :
    promise st' = promise st -> timeoutId st' = timeoutId st ->
    close_calls st' = close_calls st -> on_close st' = on_close st ->
    sent st' = sent st ->
    effect st st'
| HandlerFails (e : error) (page : response) :
    failure_page (kind e) = [page] ->
    promise st' = match promise st with None => Some (Rejected e) | p => p end ->
    timeoutId st' = match timeoutId st with Armed => Cleared | t => t end ->
    close_calls st' = S (close_calls st) -> on_close st' = on_close st ->
    sent st' = (sent st ++ [page])%list ->
    effect st st'
| HandlerSucceeds :
    promise st' = promise st ->
    timeoutId st' = match timeoutId st with Armed => Cleared | t => t end ->
    close_calls st' = S (close_calls st) -> on_close st' = S (on_close st) ->
    sent st' = (sent st ++ [page_success])%list ->
    effect st st'
| TimerRuns :
    timeoutId st = Armed -> timeoutId st' = Fired ->
    promise st' = match promise st with
                  | None => Some (Rejected timeout_error)
                  | p => p
                  end ->
    close_calls st' = S (close_calls st) -> on_close st' = on_close st ->
    sent st' = sent st ->
    effect st st'
| ServerClosed :
    1 <= on_close st -> on_close st' = 0 ->
    promise st' = match promise st with None => Some Resolved | p => p end ->
    timeoutId st' = timeoutId st -> close_calls st' = close_calls st ->
    sent st' = sent st ->
    effect st st'.

(** A first login: the client file in the working directory, nothing
    else on disk. *)
Definition before_login : world :=
  mk_world Missing Missing (only_at "/work/client.json") None.

(* ================================================================== *)
(** ** Shape of a store built by the commands *)

(** Every key occurs once and holds the record of that e-mail, and a
    store that is not empty has a default. *)
Definition store_ok (config : AccountsConfig) : Prop :=
  NoDup (Object_keys (accounts config))
  /\ (forall k a, In (k, a) (accounts config) -> email a = k)
  /\ (accounts config <> [] -> default_account config <> None).


(** A legacy file that carries the app credential. *)
Definition saved_legacy : Legacy.Credentials :=
  {| Legacy.client_id := Some "id"; Legacy.client_secret := Some "secret";
     Legacy.access_token := "at"; Legacy.refresh_token := "rt";
     Legacy.scope := "mail"; Legacy.token_type := "Bearer";
     Legacy.expiry_date := 5000 |}.

(* ================================================================== *)
(** ** formatter.ts

    A string is the sequence of its UTF-16 code units, one character of
    the model per unit; [maxLength] is an integer. *)

(** [text.substring(0, end)]: [end] is clamped to the string. *)
Definition substring_to (end_ : Z) (text : string) : string :=
  String.substring 0 (Z.to_nat end_) text.

(** [truncate(text, maxLength)] *)
Definition truncate (text : string) (maxLength : Z) : string :=
  if (Z.of_nat (String.length text) <=? maxLength)%Z then text
  else substring_to (maxLength - 3) text ++ "...".

(* ================================================================== *)
(** ** drive.ts: export formats *)

Module Drive.

Record format_config := {
  mimeType : string;
  extension : string
}.

Definition GOOGLE_DOCS_MIME_TYPES : list string :=
  [ "application/vnd.google-apps.document";
    "application/vnd.google-apps.spreadsheet";
    "application/vnd.google-apps.presentation";
    "application/vnd.google-apps.drawing" ].

Definition fmt (m e : string) : format_config :=
  {| mimeType := m; extension := e |}.

Definition EXPORT_FORMATS : object (object format_config) :=
  [ ("application/vnd.google-apps.document",
     [ ("pdf", fmt "application/pdf" ".pdf");
       ("docx", fmt "application/vnd.openxmlformats-officedocument.wordprocessingml.document" ".docx");
       ("markdown", fmt "text/markdown" ".md");
       ("txt", fmt "text/plain" ".txt");
       ("html", fmt "application/zip" ".zip");
       ("epub", fmt "application/epub+zip" ".epub") ]);
    ("application/vnd.google-apps.spreadsheet",
     [ ("pdf", fmt "application/pdf" ".pdf");
       ("xlsx", fmt "application/vnd.openxmlformats-officedocument.spreadsheetml.sheet" ".xlsx");
       ("csv", fmt "text/csv" ".csv");
       ("tsv", fmt "text/tab-separated-values" ".tsv");
       ("html", fmt "application/zip" ".zip") ]);
    ("application/vnd.google-apps.presentation",
     [ ("pdf", fmt "application/pdf" ".pdf");
       ("pptx", fmt "application/vnd.openxmlformats-officedocument.presentationml.presentation" ".pptx");
       ("txt", fmt "text/plain" ".txt") ]);
    ("application/vnd.google-apps.drawing",
     [ ("pdf", fmt "application/pdf" ".pdf");
       ("jpeg", fmt "image/jpeg" ".jpg");
       ("png", fmt "image/png" ".png");
       ("svg", fmt "image/svg+xml" ".svg") ]) ].

(** [getAvailableFormats(mimeType)]; [Object.keys] of an inherited
    member is empty. *)
Definition getAvailableFormats (mimeType : string) : list string :=
  match lookup mimeType EXPORT_FORMATS with
  | Some (Own formats) => Object_keys formats
  | Some (Inherited _) => []
  | None => ["original"]
  end.

(** [list.join(', ')] *)
Fixpoint join (l : list string) : string :=
  match l with
  | [] => EmptyString
  | [s] => s
  | s :: rest => s ++ ", " ++ join rest
  end.

(** What [downloadFile] asks the API for once it has decided:
    [drive.files.export] with a [mimeType], which is [None] when the
    source passes [undefined], or [drive.files.get] with [alt: 'media']. *)
Inductive transfer :=
| Export (mimeType : option string)
| Media.

(** The part of [downloadFile(auth, fileId, options)] between the
    metadata request and the transfer: from the file's [mimeType] and
    [name] and from [options.format], the name of the output file and
    the transfer to make, or the message of the error thrown (as the
    [catch] of [downloadFile] rewraps it).  Under [isGoogleDoc] the
    type is one of the four keys of [EXPORT_FORMATS], so
    [EXPORT_FORMATS[mimeType]] is an own property there.  A
    [formatConfig] that is an inherited member is truthy and has
    neither [extension] nor [mimeType]: the template literal prints
    [undefined] for the first. *)
Definition downloadFile_plan (mimeType fileName : string)
           (format : option string) : string + (string * transfer) :=
  let isGoogleDoc := existsb (String.eqb mimeType) GOOGLE_DOCS_MIME_TYPES in
  if isGoogleDoc then
    let requestedFormat := or_else format "pdf" in
    let formatConfig :=
      match lookup mimeType EXPORT_FORMATS with
      | Some (Own formats) => lookup requestedFormat formats
      | _ => None
      end in
    match formatConfig with
    | None =>
        let availableFormats :=
          join (Object_keys
                  (match lookup mimeType EXPORT_FORMATS with
                   | Some (Own formats) => formats
                   | _ => []
                   end)) in
        inl ("Failed to download file: "
             ++ "Unsupported export format '" ++ requestedFormat
             ++ "' for this file type." ++ nl
             ++ "Available formats: "
             ++ (if truthy availableFormats then availableFormats else "none"))
    | Some (Own formatConfig) =>
        inr (fileName ++ Drive.extension formatConfig,
             Export (Some (Drive.mimeType formatConfig)))
    | Some (Inherited _) =>
        inr (fileName ++ "undefined", Export None)
    end
  else
    if truthy_opt format
       && negb (String.eqb (or_else format EmptyString) "original")
    then inl ("Failed to download file: "
              ++ "Format conversion is only supported for Google Workspace files (Docs, Sheets, Slides)")
    else inr (fileName, Media).

End Drive.

(* ================================================================== *)
(** ** updater.ts: version comparison

    [Number] and the order of numbers belong to the language, not to the
    repository: [number] is the type of JavaScript numbers, [Number] the
    conversion of a string, and [lt a b] the comparison [a < b], which
    is false when an operand is [NaN]; [a > b] is [b < a]. *)

(** [s.replace(/^v/, '')] *)
Definition strip_v (s : string) : string :=
  match s with
  | String "v" rest => rest
  | _ => s
  end.

(** [s.split('.')] *)
Fixpoint split_dot (s : string) : list string :=
  match s with
  | EmptyString => [EmptyString]
  | String c rest =>
      if Ascii.eqb c "."
      then EmptyString :: split_dot rest
      else match split_dot rest with
           | first :: others => String c first :: others
           | [] => [String c EmptyString]
           end
  end.

(** [parts[i] < other[i]]: an index past the end reads [undefined],
    which compares as [NaN]. *)
Definition part_lt {number : Type} (lt : number -> number -> bool)
           (x y : option number) : bool :=
  match x, y with
  | Some a, Some b => lt a b
  | _, _ => false
  end.

(** The loop of [compareVersions], from index [i] for [n] rounds. *)
Fixpoint compare_parts {number : Type} (lt : number -> number -> bool)
         (currentParts latestParts : list number) (i n : nat) : Z :=
  match n with
  | O => 0
  | S n' =>
      if part_lt lt (nth_error currentParts i) (nth_error latestParts i)
      then 1
      else if part_lt lt (nth_error latestParts i) (nth_error currentParts i)
      then -1
      else compare_parts lt currentParts latestParts (S i) n'
  end.

(** [compareVersions(current, latest)] *)
Definition compareVersions {number : Type} (Number : string -> number)
           (lt : number -> number -> bool) (current latest : string) : Z :=
  let cleanCurrent := strip_v current in
  let cleanLatest := strip_v latest in
  let currentParts := map Number (split_dot cleanCurrent) in
  let latestParts := map Number (split_dot cleanLatest) in
  compare_parts lt currentParts latestParts 0 3.

(** A conversion for the examples: decimal digits, anything else is
    [NaN]. *)
Fixpoint digits (s : string) (acc : Z) : option Z :=
  match s with
  | EmptyString => Some acc
  | String c rest =>
      let n := Z.of_nat (nat_of_ascii c) in
      if ((48 <=? n) && (n <=? 57))%Z
      then digits rest (10 * acc + (n - 48))
      else None
  end.

Definition Number_of_digits (s : string) : option Z := digits s 0.

Definition lt_or_NaN (a b : option Z) : bool :=
  match a, b with
  | Some x, Some y => (x <? y)%Z
  | _, _ => false
  end.

(* ================================================================== *)
(** ** drive.ts: comments *)

Module Comments.

(** What the API returns, with the fields [listComments] reads. *)
Record api_author := {
  displayName : option string;
  emailAddress : option string
}.

Record api_reply := {
  reply_id : string;
  reply_content : string;
  reply_author : option api_author;
  reply_createdTime : string
}.

Record api_comment := {
  id : string;
  content : string;
  author : option api_author;
  createdTime : string;
  modifiedTime : string;
  resolved : option bool;
  quotedFileContent : option string;
  replies : option (list api_reply)
}.

(** [interface DriveComment] and its replies *)
Record Reply := {
  r_id : string;
  r_content : string;
  r_author : string;
  r_createdTime : string
}.

Record DriveComment := {
  c_id : string;
  c_content : string;
  c_author : string;
  c_authorEmail : option string;
  c_createdTime : string;
  c_modifiedTime : string;
  c_resolved : bool;
  c_quotedContent : option string;
  c_replies : list Reply
}.

(** [author?.displayName || 'Unknown'] *)
Definition author_name (a : option api_author) : string :=
  or_else (match a with Some a => displayName a | None => None end) "Unknown".

(** Truthiness of a [boolean | null | undefined]. *)
Definition is_true (b : option bool) : bool :=
  match b with
  | Some true => true
  | _ => false
  end.

(** [listComments] from the response of [drive.comments.list] on:
    [response.data.comments || []], the filter, the mapping. *)
Definition listComments (comments : option (list api_comment))
           (includeResolved : option bool) : list DriveComment :=
  let comments := match comments with Some l => l | None => [] end in
  let filteredComments :=
    if is_true includeResolved then comments
    else filter (fun c => negb (is_true (resolved c))) comments in
  map (fun comment =>
         {| c_id := id comment;
            c_content := content comment;
            c_author := author_name (author comment);
            c_authorEmail :=
              match author comment with
              | Some a => emailAddress a
              | None => None
              end;
            c_createdTime := createdTime comment;
            c_modifiedTime := modifiedTime comment;
            c_resolved := is_true (resolved comment);
            c_quotedContent := quotedFileContent comment;
            c_replies :=
              map (fun reply =>
                     {| r_id := reply_id reply;
                        r_content := reply_content reply;
                        r_author := author_name (reply_author reply);
                        r_createdTime := reply_createdTime reply |})
                  (match replies comment with Some l => l | None => [] end) |})
      filteredComments.

End Comments.

(** Two comments for the examples, the second one resolved and without
    an author. *)
Definition open_comment : Comments.api_comment :=
  {| Comments.id := "c1"; Comments.content := "please check";
     Comments.author :=
       Some {| Comments.displayName := Some "Ann";
               Comments.emailAddress := None |};
     Comments.createdTime := "t1"; Comments.modifiedTime := "t1";
     Comments.resolved := None; Comments.quotedFileContent := None;
     Comments.replies := None |}.

Definition resolved_comment : Comments.api_comment :=
  {| Comments.id := "c2"; Comments.content := "done";
     Comments.author := None;
     Comments.createdTime := "t2"; Comments.modifiedTime := "t3";
     Comments.resolved := Some true; Comments.quotedFileContent := None;
     Comments.replies := Some [] |}.

(* ================================================================== *)
(** ** Files that cannot be read, commands on inherited names *)

(** A file that is not there, or on which reading or parsing throws. *)
Definition unreadable {A} (f : file A) : Prop :=
  f = Missing \/ exists reason, f = Corrupt reason.

(** The same world with an empty store written out in the file. *)
Definition with_empty_store (w : world) : world :=
  let d := fs w in
  with_fs w
    {| config_dir := config_dir d;
       accounts_json := Json empty_config;
       credentials_json := credentials_json d;
       client_files := client_files d;
       writes := writes d;
       mkdirs := mkdirs d |}.


(** The client [getAuthenticatedClient] returns for an inherited
    member: no id, no secret, no token. *)
Definition blank_client : OAuth2.t := OAuth2.new None None REDIRECT_URI.


(** Collaborators whose token endpoint returns a refresh token for
    every code but [c0de]. *)
Definition selective : Oracle :=
  {| Date_now := 0;
     refreshAccessToken := fun _ => inl "unused";
     getToken := fun _ code =>
       if String.eqb code "c0de" then inr (fresh_tokens None)
       else inr (fresh_tokens (Some "rt-new"));
     fetch_userinfo := fun _ => Ok (Some "a@x.com");
     URL_searchParams := fun url =>
       if String.eqb url "/?code=c0de" then inr [("code", "c0de")]
       else inr [("code", "0ther")] |}.

(* ================================================================== *)
(** * Properties *)

(** ** Objects as association lists *)

Lemma get_prop_set_prop_eq {V} (k : string) (v : V) (o : object V) :
  get_prop k (set_prop k v o) = Some v.
Proof.
  induction o as [| [k' v'] rest IH]; simpl.
  - now rewrite String.eqb_refl.
  - destruct (String.eqb k k') eqn:E; simpl; rewrite E; auto.
Qed.

Lemma get_prop_set_prop_neq {V} (k j : string) (v : V) (o : object V) :
  j <> k -> get_prop j (set_prop k v o) = get_prop j o.
Proof.
  intros N. induction o as [| [k' v'] rest IH]; simpl.
  - apply String.eqb_neq in N. now rewrite N.
  - destruct (String.eqb k k') eqn:E; simpl.
    + apply String.eqb_eq in E. subst k'.
      apply String.eqb_neq in N. now rewrite N.
    + now rewrite IH.
Qed.

Lemma get_prop_delete_prop_neq {V} (k j : string) (o : object V) :
  j <> k -> get_prop j (delete_prop k o) = get_prop j o.
Proof.
  intros N. induction o as [| [k' v'] rest IH]; simpl; auto.
  destruct (String.eqb k k') eqn:E; simpl.
  - apply String.eqb_eq in E. subst k'.
    apply String.eqb_neq in N. now rewrite N.
  - now rewrite IH.
Qed.



Lemma lookup_own {V} (k : string) (v : V) (o : object V) :
  get_prop k o = Some v -> lookup k o = Some (Own v).
Proof. unfold lookup. now intros ->. Qed.

Lemma lookup_absent {V} (k : string) (o : object V) :
  get_prop k o = None ->
  lookup k o = if inherited k then Some (Inherited k) else None.
Proof. unfold lookup. now intros ->. Qed.

Lemma lookup_None {V} (k : string) (o : object V) :
  lookup k o = None <-> get_prop k o = None /\ inherited k = false.
Proof.
  unfold lookup. destruct (get_prop k o); [split; [discriminate | now intros [H _]] |].
  destruct (inherited k); split; try discriminate; auto.
  now intros [_ H].
Qed.

Lemma lookup_Own_inv {V} (k : string) (v : V) (o : object V) :
  lookup k o = Some (Own v) -> get_prop k o = Some v.
Proof.
  unfold lookup. destruct (get_prop k o); [now intros [= ->] |].
  destruct (inherited k); discriminate.
Qed.

Lemma delete_prop_absent {V} (k : string) (o : object V) :
  get_prop k o = None -> delete_prop k o = o.
Proof.
  induction o as [| [k' v'] rest IH]; simpl; [reflexivity |].
  destruct (String.eqb k k'); [discriminate |].
  intros H. simpl. now rewrite IH.
Qed.

(** ** The credential store *)

Lemma saveAccountsConfig_load (config : AccountsConfig) (w : world) :
  loadAccountsConfig (snd (saveAccountsConfig config w)) = config.
Proof. reflexivity. Qed.

Lemma saveAccount_load (credentials : AccountCredentials) (w : world) :
  loadAccountsConfig (snd (saveAccount credentials w)) =
  {| default_account :=
       if negb (truthy_opt (default_account (loadAccountsConfig w)))
       then Some (email credentials)
       else default_account (loadAccountsConfig w);
     accounts :=
       set_prop (email credentials) credentials
                (accounts (loadAccountsConfig w)) |}.
Proof.
  reflexivity.
Qed.


(** C4.  The invariant does not survive the command
    [gscli auth set-default constructor].  On a first run
    [config.accounts['constructor']] is the function every object
    inherits from [Object.prototype], so the guard
    [if (!config.accounts[email])] of [setDefaultAccount] lets the
    command through, and the file it writes has a default that names no
    account, in an empty mapping.  The same happens beside stored
    accounts: after a login as [a@x.com], [set-default toString] leaves
    a default that is none of the stored keys. *)
Theorem set_default_accepts_inherited_name :
  (let w := exec_all [SetDefault "constructor"] first_run in
   setDefaultAccount "constructor" first_run = (inr tt, w)
   /\ accounts_json (fs w)
      = Json {| default_account := Some "constructor"; accounts := [] |}
   /\ get_prop "constructor" (accounts (loadAccountsConfig w)) = None)
  /\ (let w := exec_all [Save alice; SetDefault "toString"] first_run in
      default_account (loadAccountsConfig w) = Some "toString"
      /\ Object_keys (accounts (loadAccountsConfig w)) = ["a@x.com"]).
Proof. repeat split. Qed.

(** ** The session provider, case by case *)

Lemma needs_refresh_true (O : Oracle) (a : AccountCredentials) :
  needs_refresh O a = true <->
  (expiry_date a <> 0 /\ expiry_date a < Date_now O)%Z.
Proof.
  unfold needs_refresh, truthy_num.
  rewrite andb_true_iff, negb_true_iff, Z.eqb_neq, Z.ltb_lt. tauto.
Qed.

Lemma needs_refresh_false (O : Oracle) (a : AccountCredentials) :
  needs_refresh O a = false <->
  (expiry_date a = 0 \/ Date_now O <= expiry_date a)%Z.
Proof.
  unfold needs_refresh, truthy_num.
  rewrite andb_false_iff, negb_false_iff, Z.eqb_eq, Z.ltb_ge. tauto.
Qed.

(** What [getAuthenticatedClient] does once an account is selected. *)
Lemma getAuthenticatedClient_found (O : Oracle) (w : world)
      (accountEmail : option string) (a : AccountCredentials) :
  getAccount accountEmail w = Some (Own a) ->
  getAuthenticatedClient O accountEmail w =
  if needs_refresh O a then
    match refreshAccessToken O (client_of a) with
    | inl _ =>
        (inl (Error TokenRefreshFailed (refresh_failed_message a)),
         with_call w (RefreshAccessToken (client_of a)))
    | inr credentials =>
        (inr (OAuth2.setCredentials (client_of a) credentials),
         snd (saveAccount (updatedAccount a credentials)
                          (with_call w (RefreshAccessToken (client_of a)))))
    end
  else (inr (client_of a), w).
Proof.
  intros H. unfold getAuthenticatedClient, bind at 1, gets. rewrite H.
  fold (client_of a).
  destruct (needs_refresh O a); [| reflexivity].
  unfold try_catch, bind, call_refreshAccessToken.
  destruct (refreshAccessToken O (client_of a)); reflexivity.
Qed.

(** ** Account selection *)

Lemma getAuthenticatedClient_no_account (O : Oracle) (w : world)
      (accountEmail : option string) :
  getAccount accountEmail w = None ->
  exists msg,
    getAuthenticatedClient O accountEmail w
    = (inl (Error (if truthy_opt accountEmail
                   then AccountNotFound else NoAccountsConfigured) msg), w).
Proof.
  intros H. unfold getAuthenticatedClient, bind, gets. rewrite H.
  destruct (truthy_opt accountEmail); eexists; reflexivity.
Qed.

Lemma getAuthenticatedClient_inherited (O : Oracle) (w : world)
      (accountEmail : option string) (name : string) :
  getAccount accountEmail w = Some (Inherited name) ->
  getAuthenticatedClient O accountEmail w = (inr blank_client, w).
Proof.
  intros H. unfold getAuthenticatedClient, bind, gets. now rewrite H.
Qed.

(** The selection at a given non-empty key. *)
Lemma getAccount_at (e : string) (w : world) :
  truthy e = true ->
  getAccount (Some e) w = lookup e (accounts (loadAccountsConfig w)).
Proof. intros T. unfold getAccount. simpl. now rewrite T. Qed.

(** C1, as the specification words it, fails on the code in two places:
    with a default that names no stored account the code does not fall
    back to the first account but fails, although the store is not
    empty; and an empty string given as e-mail is treated as no e-mail. *)
Lemma selection_counterexample :
  (spec_select dangling None = inr alice
   /\ code_select (obliging 0 None)
                  (mk_world (Json dangling) Missing no_files None) None
      = inl NoAccountsConfigured)
  /\ (spec_select two_accounts (Some EmptyString) = inl AccountNotFound
      /\ code_select (obliging 0 None)
                     (mk_world (Json two_accounts) Missing no_files None)
                     (Some EmptyString)
         = inr (Own alice)).
Proof. repeat split. Qed.

(** What the selection rule below leaves out: a name that every object
    inherits from [Object.prototype] is found by [config.accounts[email]]
    in any store, so the session provider does not refuse it; the client
    it returns has no client credential and no token. *)
Lemma inherited_name_is_not_refused :
  getAccount (Some "toString") first_run = Some (Inherited "toString")
  /\ getAuthenticatedClient (obliging 0 None) (Some "toString") first_run
     = (inr {| OAuth2.client_id := None; OAuth2.client_secret := None;
               OAuth2.redirect_uri := "http://127.0.0.1:8080";
               OAuth2.credentials := None |},
        first_run).
Proof. split; reflexivity. Qed.

(** C1, amended.  A non-empty [accountEmail] selects exactly the account
    stored under that key; when the key is absent and is not the name of
    a member inherited from [Object.prototype], nothing is selected and
    the outcome is [AccountNotFound].  Without an e-mail (or with the
    empty string): a set [default_account] selects the account stored
    under it, and when it names neither a stored account nor an
    inherited member the outcome is [NoAccountsConfigured]; with no
    default set the first account in [Object.keys] order is selected,
    and [NoAccountsConfigured] is the outcome when the store is empty.
    A failed selection leaves the world as it was; a selected account
    hands its client credential to the client, and the only failure left
    is that of the refresh. *)
Theorem account_selection (O : Oracle) (w : world)
        (accountEmail : option string) :
  let config := loadAccountsConfig w in
  let failure k :=
    exists msg, getAuthenticatedClient O accountEmail w = (inl (Error k msg), w) in
  (forall e, accountEmail = Some e -> truthy e = true ->
     (forall a, get_prop e (accounts config) = Some a ->
                getAccount accountEmail w = Some (Own a))
     /\ (get_prop e (accounts config) = None -> inherited e = false ->
         getAccount accountEmail w = None /\ failure AccountNotFound))
  /\ (truthy_opt accountEmail = false ->
      (forall d, default_account config = Some d -> truthy d = true ->
         (forall a, get_prop d (accounts config) = Some a ->
                    getAccount accountEmail w = Some (Own a))
         /\ (get_prop d (accounts config) = None -> inherited d = false ->
             getAccount accountEmail w = None /\ failure NoAccountsConfigured))
      /\ (truthy_opt (default_account config) = false ->
          getAccount accountEmail w
          = option_map (fun kv => Own (snd kv)) (hd_error (accounts config))
          /\ (accounts config = [] -> failure NoAccountsConfigured)))
  /\ (forall a, getAccount accountEmail w = Some (Own a) ->
       match fst (getAuthenticatedClient O accountEmail w) with
       | inr client =>
           OAuth2.client_id client = Some (client_id a)
           /\ OAuth2.client_secret client = Some (client_secret a)
       | inl e => kind e = TokenRefreshFailed
       end).
Proof.
  intros config failure. split; [| split].
  - intros e -> T. rewrite (getAccount_at e w T). fold config. split.
    + intros a G. now apply lookup_own.
    + intros G I.
      assert (N : getAccount (Some e) w = None)
        by (rewrite (getAccount_at e w T); apply lookup_None; now split).
      split; [apply lookup_None; now split |].
      destruct (getAuthenticatedClient_no_account O w (Some e) N) as [msg H].
      simpl in H. rewrite T in H. now exists msg.
  - intros F. split.
    + intros d D T.
      assert (G : getAccount accountEmail w = lookup d (accounts config)).
      { unfold getAccount. rewrite F. fold config. rewrite D. simpl. now rewrite T. }
      rewrite G. split.
      * intros a Ga. now apply lookup_own.
      * intros Ga I.
        assert (N : lookup d (accounts config) = None)
          by (apply lookup_None; now split).
        split; [exact N |]. rewrite <- G in N.
        destruct (getAuthenticatedClient_no_account O w accountEmail N) as [msg H].
        rewrite F in H. now exists msg.
    + intros D.
      assert (G : getAccount accountEmail w
                  = option_map (fun kv => Own (snd kv))
                               (hd_error (accounts config))).
      { unfold getAccount. rewrite F. fold config. rewrite D.
        destruct (accounts config) as [| [k a] rest]; simpl; [reflexivity |].
        unfold lookup. simpl. now rewrite String.eqb_refl. }
      split; [exact G |]. intros E. rewrite E in G. simpl in G.
      destruct (getAuthenticatedClient_no_account O w accountEmail G) as [msg H].
      rewrite F in H. now exists msg.
  - intros a G. rewrite (getAuthenticatedClient_found O w accountEmail a G).
    destruct (needs_refresh O a); [| now split].
    destruct (refreshAccessToken O (client_of a)); [reflexivity | now split].
Qed.

Lemma account_selection_witness :
  getAccount (Some "b@x.com")
             (mk_world (Json two_accounts) Missing no_files None)
  = Some (Own bob)
  /\ getAccount None (mk_world (Json two_accounts) Missing no_files None)
     = Some (Own alice)
  /\ (exists msg,
        getAuthenticatedClient (obliging 0 None) (Some "nobody@x.com") first_run
        = (inl (Error AccountNotFound msg), first_run))
  /\ exists msg,
       getAuthenticatedClient (obliging 0 None) None first_run
       = (inl (Error NoAccountsConfigured msg), first_run).
Proof.
  split; [| split; [| split]].
  - exact (proj1 (proj1 (account_selection (obliging 0 None)
                           (mk_world (Json two_accounts) Missing no_files None)
                           (Some "b@x.com"))
                        "b@x.com" eq_refl eq_refl)
                 bob eq_refl).
  - exact (proj1 (proj1 (proj1 (proj2 (account_selection (obliging 0 None)
                                  (mk_world (Json two_accounts) Missing no_files None)
                                  None))
                               eq_refl)
                        "a@x.com" eq_refl eq_refl)
                 alice eq_refl).
  - exact (proj2 (proj2 (proj1 (account_selection (obliging 0 None) first_run
                                  (Some "nobody@x.com"))
                               "nobody@x.com" eq_refl eq_refl)
                        eq_refl eq_refl)).
  - exact (proj2 (proj2 (proj1 (proj2 (account_selection (obliging 0 None)
                                         first_run None))
                               eq_refl)
                        eq_refl)
                 eq_refl).
Defined.

(** ** Expiry and refresh *)

(** C2, as the specification words it, fails on the code in two places:
    an [expiry_date] of 0 lies in the past and yet no refresh is
    attempted, and a refresh response whose [refresh_token] is the empty
    string has its token replaced by the stored one. *)
Lemma refresh_counterexample :
  ((expiry_date (account "a@x.com" 0) < Date_now (obliging 1000 None))%Z
   /\ getAccount None (one_account 0) = Some (Own (account "a@x.com" 0))
   /\ calls (snd (getAuthenticatedClient (obliging 1000 None) None
                                         (one_account 0))) = [])
  /\ (Token.refresh_token (fresh_tokens (Some EmptyString)) = Some EmptyString
      /\ option_map refresh_token
           (get_prop "a@x.com"
              (accounts
                 (loadAccountsConfig
                    (snd (getAuthenticatedClient
                            (obliging 1000 (Some EmptyString)) None
                            (one_account 500))))))
         = Some "rt-a@x.com").
Proof. repeat split. Qed.

(** C2, amended.  For the selected account: when its [expiry_date] is
    not 0 and lies strictly before [Date.now()], exactly one refresh
    call is made, and on its success one record is written to the store
    under the account's e-mail: the stored account with the response's
    [access_token], [scope], [token_type] and [expiry_date], and with
    the response's [refresh_token] when that is a non-empty string, the
    stored [refresh_token] otherwise; the client returned is bound to
    the response's credentials.  When [expiry_date] is 0 or not before
    [Date.now()], the client is bound to the stored tokens and the world
    is untouched: no refresh call, no write. *)
Theorem refresh_when_expired (O : Oracle) (w : world)
        (accountEmail : option string) (a : AccountCredentials) :
  getAccount accountEmail w = Some (Own a) ->
  ((expiry_date a <> 0 /\ expiry_date a < Date_now O)%Z ->
   forall credentials,
     refreshAccessToken O (client_of a) = inr credentials ->
     let updated :=
       {| email := email a;
          client_id := client_id a;
          client_secret := client_secret a;
          access_token := Token.access_token credentials;
          refresh_token :=
            match Token.refresh_token credentials with
            | Some (String c s) => String c s
            | _ => refresh_token a
            end;
          scope := Token.scope credentials;
          token_type := Token.token_type credentials;
          expiry_date := Token.expiry_date credentials |} in
     let r := getAuthenticatedClient O accountEmail w in
     fst r = inr (OAuth2.setCredentials (client_of a) credentials)
     /\ calls (snd r) = (calls w ++ [RefreshAccessToken (client_of a)])%list
     /\ accounts (loadAccountsConfig (snd r))
        = set_prop (email a) updated (accounts (loadAccountsConfig w))
     /\ get_prop (email a) (accounts (loadAccountsConfig (snd r))) = Some updated
     /\ writes (fs (snd r)) = (writes (fs w) ++ [loadAccountsConfig (snd r)])%list)
  /\ ((expiry_date a = 0 \/ Date_now O <= expiry_date a)%Z ->
      getAuthenticatedClient O accountEmail w = (inr (client_of a), w)
      /\ OAuth2.credentials (client_of a) = Some (stored_tokens a)).
Proof.
  intros H. rewrite (getAuthenticatedClient_found O w accountEmail a H). split.
  - intros E credentials R. apply needs_refresh_true in E. rewrite E, R.
    assert (U : updatedAccount a credentials =
                {| email := email a;
                   client_id := client_id a;
                   client_secret := client_secret a;
                   access_token := Token.access_token credentials;
                   refresh_token :=
                     match Token.refresh_token credentials with
                     | Some (String c s) => String c s
                     | _ => refresh_token a
                     end;
                   scope := Token.scope credentials;
                   token_type := Token.token_type credentials;
                   expiry_date := Token.expiry_date credentials |}).
    { unfold updatedAccount, or_else.
      destruct (Token.refresh_token credentials) as [[| c s] |]; reflexivity. }
    cbv zeta. rewrite <- U. cbn [fst snd].
    rewrite saveAccount_load. cbn [accounts].
    repeat split.
    apply get_prop_set_prop_eq.
  - intros E. apply needs_refresh_false in E. rewrite E. split; reflexivity.
Qed.

Lemma refresh_when_expired_witness :
  let r := getAuthenticatedClient (obliging 1000 None) None (one_account 500) in
  fst r = inr (OAuth2.setCredentials (client_of (account "a@x.com" 500))
                                     (fresh_tokens None))
  /\ calls (snd r) = [RefreshAccessToken (client_of (account "a@x.com" 500))]
  /\ option_map refresh_token
       (get_prop "a@x.com" (accounts (loadAccountsConfig (snd r))))
     = Some "rt-a@x.com"
  /\ getAuthenticatedClient (obliging 1000 None) None (one_account 5000)
     = (inr (client_of (account "a@x.com" 5000)), one_account 5000).
Proof.
  pose proof (refresh_when_expired (obliging 1000 None) (one_account 500) None
                (account "a@x.com" 500) eq_refl) as [Hexp _].
  pose proof (refresh_when_expired (obliging 1000 None) (one_account 5000) None
                (account "a@x.com" 5000) eq_refl) as [_ Hfresh].
  specialize (Hexp ltac:(split; [discriminate | reflexivity])
                   (fresh_tokens None) eq_refl).
  destruct Hexp as (H1 & H2 & _ & H4 & _).
  destruct (Hfresh ltac:(right; discriminate)) as [H5 _].
  split; [exact H1 |]. split; [exact H2 |]. split; [| exact H5].
  cbv zeta in H4. simpl email in H4. rewrite H4. reflexivity.
Defined.

(** C3.  When the refresh call fails for the selected account, whatever
    the failure, [getAuthenticatedClient] throws the refresh error whose
    message carries the account's e-mail, and the disk is exactly as
    before: same files, and no [writeFileSync] or [mkdirSync] was
    issued. *)
Theorem refresh_failure_leaves_store (O : Oracle) (w : world)
        (accountEmail : option string) (a : AccountCredentials)
        (reason : string) :
  getAccount accountEmail w = Some (Own a) ->
  needs_refresh O a = true ->
  refreshAccessToken O (client_of a) = inl reason ->
  let r := getAuthenticatedClient O accountEmail w in
  fst r = inl (Error TokenRefreshFailed
                 ("Failed to refresh access token for " ++ email a
                  ++ ". Please re-authenticate with "
                  ++ dq ++ "gscli auth login" ++ dq ++ "."))
  /\ fs (snd r) = fs w
  /\ loadAccountsConfig (snd r) = loadAccountsConfig w
  /\ calls (snd r) = (calls w ++ [RefreshAccessToken (client_of a)])%list.
Proof.
  intros H E R.
  rewrite (getAuthenticatedClient_found O w accountEmail a H), E, R.
  repeat split.
Qed.

Lemma refresh_failure_leaves_store_witness :
  let r := getAuthenticatedClient (failing 1000) None (one_account 500) in
  fst r = inl (Error TokenRefreshFailed
                 ("Failed to refresh access token for a@x.com"
                  ++ ". Please re-authenticate with "
                  ++ dq ++ "gscli auth login" ++ dq ++ "."))
  /\ fs (snd r) = fs (one_account 500)
  /\ loadAccountsConfig (snd r) = loadAccountsConfig (one_account 500)
  /\ calls (snd r)
     = (calls (one_account 500)
        ++ [RefreshAccessToken (client_of (account "a@x.com" 500))])%list.
Proof.
  exact (refresh_failure_leaves_store (failing 1000) (one_account 500) None
           (account "a@x.com" 500) "invalid_grant" eq_refl eq_refl eq_refl).
Defined.

(** ** The client credential resolver *)

(** C5, as the specification words it, fails on the code: an explicit
    path whose file is missing ends the resolution with an error instead
    of passing on to the environment variable, and a path in the
    environment variable whose file is missing hides the default file. *)
Lemma resolution_order_counterexample :
  (let w := mk_world Missing Missing (only_at "/etc/client.json")
                     (Some "/etc/client.json") in
   spec_resolve (Some "missing.json") w
   = Some {| app_client_id := "id"; app_client_secret := "secret" |}
   /\ loadClientCredentials (Some "missing.json") w
      = inl (Error ClientFileError
               ("Failed to load client credentials from missing.json"
                ++ ": Client file not found: missing.json")))
  /\ (let w := mk_world Missing Missing (only_at "/work/client.json")
                        (Some "/etc/client.json") in
      spec_resolve None w
      = Some {| app_client_id := "id"; app_client_secret := "secret" |}
      /\ loadClientCredentials None w
         = inl (Error ConfigurationError (not_found_message "/etc/client.json"))).
Proof. repeat split. Qed.

(** The first candidate of the specification is not consulted at all:
    with an account in the store and no client file anywhere, the
    resolver finds nothing. *)
Lemma resolver_ignores_account_store :
  let w := mk_world (Json two_accounts) Missing no_files None in
  embedded_in_store w
  = Some {| app_client_id := "id"; app_client_secret := "secret" |}
  /\ loadClientCredentials None w
     = inl (Error ConfigurationError (not_found_message "/work/client.json")).
Proof. split; reflexivity. Qed.

Lemma read_client_file_error (f : file ClientFile.t) (e : error) :
  read_client_file f = inl e ->
  e = invalid_format \/ kind e = ClientFileError.
Proof.
  unfold read_client_file. destruct f as [| reason | credentials].
  - intros [= <-]. now right.
  - intros [= <-]. now right.
  - destruct (ClientFile.client_id (unwrap credentials)) as [id |];
      [destruct (ClientFile.client_secret (unwrap credentials)) as [secret |];
       [destruct (truthy id && truthy secret); [discriminate |] |] |];
      intros [= <-]; now left.
Qed.

Lemma invalid_format_recognised :
  includes "Invalid credentials format" (message invalid_format) = true.
Proof. reflexivity. Qed.

(** C5, amended.  When step 1 finds no saved app credential, exactly one
    file is consulted: the explicit path when it is given and not empty,
    else the path in the environment variable when that is set and not
    empty, else the default path.  The result is that file's credential
    when it exists, parses and has both fields; otherwise the call
    fails, without trying a later candidate: with the error of the file
    for an explicit path, with the invalid-format error for a file that
    lacks a field, and with the configuration error that names the
    consulted path when the file of the environment or default path is
    missing. *)
Theorem resolver_consults_one_file (clientPath : option string) (w : world) :
  saved_client_credentials w = None ->
  let f := client_files (fs w) (consulted_path clientPath w) in
  (forall creds,
      read_client_file f = inr creds ->
      loadClientCredentials clientPath w = inr creds)
  /\ (forall e,
         read_client_file f = inl e ->
         exists e',
           loadClientCredentials clientPath w = inl e'
           /\ (kind e' = InvalidCredentialFormat
               \/ kind e' = ClientFileError
               \/ kind e' = ConfigurationError)
           /\ (kind e = InvalidCredentialFormat ->
               kind e' = InvalidCredentialFormat)
           /\ (truthy_opt clientPath = false -> f = Missing ->
               e' = Error ConfigurationError
                      (not_found_message (consulted_path clientPath w)))).
Proof.
  intros S f.
  assert (P : consulted_path clientPath w =
              if truthy_opt clientPath then or_else clientPath EmptyString
              else or_else (GOOGLE_CLIENT_CREDENTIAL_FILE w)
                           (DEFAULT_CLIENT_CONFIG_PATH w)).
  { unfold consulted_path, or_else.
    destruct clientPath as [[| c s] |]; simpl;
      destruct (GOOGLE_CLIENT_CREDENTIAL_FILE w) as [[| c' s'] |]; reflexivity. }
  unfold loadClientCredentials. rewrite S.
  destruct (truthy_opt clientPath) eqn:T; rewrite <- P; fold f.
  - (* the explicit path *)
    split.
    + intros creds R. rewrite R.
      destruct f; simpl; try reflexivity; discriminate.
    + intros e R.
      destruct (existsSync f) eqn:X.
      * rewrite R. eexists. split; [reflexivity |]. cbn [kind].
        split; [| split; [tauto | discriminate]].
        destruct (read_client_file_error f e R) as [-> | K];
          [left; reflexivity | right; left; exact K].
      * destruct f; try discriminate. simpl in R. injection R as <-.
        eexists. split; [reflexivity |]. cbn [kind].
        split; [right; left; reflexivity | split; [tauto | discriminate]].
  - (* the environment variable, else the default path *)
    split.
    + intros creds R. rewrite R.
      destruct f; simpl; try reflexivity; discriminate.
    + intros e R.
      destruct (existsSync f) eqn:X.
      * rewrite R.
        destruct (read_client_file_error f e R) as [-> | K].
        -- rewrite invalid_format_recognised.
           eexists. split; [reflexivity |].
           split; [left; reflexivity | split; [tauto |]].
           intros _ M. rewrite M in X. discriminate.
        -- destruct (includes "Invalid credentials format" (message e)).
           ++ exists e. split; [reflexivity |].
              split; [right; left; exact K | split; [tauto |]].
              intros _ M. rewrite M in X. discriminate.
           ++ eexists. split; [reflexivity |]. cbn [kind].
              split; [right; right; reflexivity | split; [| reflexivity]].
              intros K'. rewrite K in K'. discriminate.
      * eexists. split; [reflexivity |]. cbn [kind].
        split; [right; right; reflexivity | split; [| reflexivity]].
        destruct f; try discriminate. simpl in R. injection R as <-.
        discriminate.
Qed.

Lemma resolver_consults_one_file_witness :
  loadClientCredentials None
    (mk_world Missing Missing (only_at "/work/client.json") None)
  = inr {| app_client_id := "id"; app_client_secret := "secret" |}.
Proof.
  apply (proj1 (resolver_consults_one_file None
                  (mk_world Missing Missing (only_at "/work/client.json") None)
                  eq_refl)).
  reflexivity.
Defined.

(** ** Files that cannot be read *)

(** C9, as the specification words it, fails on the code: the load of
    the store is not the only place where a parse failure is swallowed.
    A [credentials.json] that does not parse reads as if it were absent,
    and a client file that does not parse, at the default path, is
    reported as credentials that were not found, in a message that does
    not mention the parse failure. *)
Lemma single_exception_counterexample :
  let w := mk_world Missing (Corrupt "Unexpected token")
                    (fun _ => Corrupt "Unexpected token") None in
  loadStoredCredentials w = None
  /\ isAuthenticated w = false
  /\ loadClientCredentials None w
     = inl (Error ConfigurationError (not_found_message "/work/client.json"))
  /\ includes "Unexpected token" (not_found_message "/work/client.json") = false.
Proof. repeat split. Qed.

(** C9, amended.  When the backing file of the store is absent, or is
    there but cannot be read or parsed, [loadAccountsConfig] returns the
    empty store [{ accounts: {} }] with no default, and no operation can
    tell the file from an empty store: [listAccounts], [getAccount], the
    session provider and every command give what they give on an empty
    store.  The same tolerance is found in two more places: an
    unreadable [credentials.json] reads as absent, and an unreadable
    client file at the environment or default path ends in the
    credentials-not-found error (the [catch] rethrows only an error
    whose message contains [Invalid credentials format], which the
    message of a failed read does not).  Only an unreadable file at an
    explicit path raises an error that carries the failure of the
    read. *)
Theorem load_tolerates_absent_or_corrupt :
  (forall (O : Oracle) (w : world),
      unreadable (accounts_json (fs w)) ->
      loadAccountsConfig w = empty_config
      /\ listAccounts w = []
      /\ (forall e, getAccount e w = getAccount e (with_empty_store w))
      /\ (forall e, fst (getAuthenticatedClient O e w)
                    = fst (getAuthenticatedClient O e (with_empty_store w)))
      /\ (forall o, loadAccountsConfig (exec w o)
                    = loadAccountsConfig (exec (with_empty_store w) o))
      /\ exists msg,
           getAuthenticatedClient O None w
           = (inl (Error NoAccountsConfigured msg), w))
  /\ (forall w : world,
         unreadable (credentials_json (fs w)) ->
         loadStoredCredentials w = None
         /\ isAuthenticated w = false
         /\ saved_client_credentials w = None)
  /\ (forall (w : world) (reason : string),
         saved_client_credentials w = None ->
         client_files (fs w) (consulted_path None w) = Corrupt reason ->
         includes "Invalid credentials format" reason = false ->
         loadClientCredentials None w
         = inl (Error ConfigurationError
                  (not_found_message (consulted_path None w))))
  /\ (forall (w : world) (clientPath reason : string),
         saved_client_credentials w = None ->
         truthy clientPath = true ->
         client_files (fs w) clientPath = Corrupt reason ->
         loadClientCredentials (Some clientPath) w
         = inl (Error ClientFileError
                  ("Failed to load client credentials from " ++ clientPath
                   ++ ": " ++ reason))).
Proof.
  split; [| split; [| split]].
  - intros O w U.
    assert (E : loadAccountsConfig w = empty_config)
      by (unfold loadAccountsConfig; destruct U as [U | [r U]]; now rewrite U).
    assert (GA : forall e, getAccount e w = getAccount e (with_empty_store w))
      by (intros e; unfold getAccount; now rewrite E).
    split; [exact E |].
    split; [unfold listAccounts; now rewrite E |].
    split; [exact GA |]. split; [| split].
    + intros e. unfold getAuthenticatedClient, bind, gets. rewrite GA.
      unfold getAccount. simpl.
      destruct e as [[| ch s] |]; simpl; try reflexivity.
      unfold lookup. simpl. destruct (inherited (String ch s)); reflexivity.
    + intros [c | e | e]; unfold exec.
      * rewrite !saveAccount_load. now rewrite E.
      * unfold setDefaultAccount, bind, gets. rewrite E. simpl.
        unfold lookup. simpl. destruct (inherited e); [reflexivity |].
        simpl. exact E.
      * unfold removeAccount, bind, gets. rewrite E. simpl.
        unfold lookup. simpl. destruct (inherited e); [reflexivity |].
        simpl. exact E.
    + apply (getAuthenticatedClient_no_account O w None).
      unfold getAccount. now rewrite E.
  - intros w U.
    assert (L : loadStoredCredentials w = None)
      by (unfold loadStoredCredentials; destruct U as [U | [r U]]; now rewrite U).
    unfold isAuthenticated, saved_client_credentials. now rewrite L.
  - intros w reason S F I.
    unfold loadClientCredentials. rewrite S. simpl truthy_opt. cbv iota.
    assert (P : consulted_path None w
                = or_else (GOOGLE_CLIENT_CREDENTIAL_FILE w)
                          (DEFAULT_CLIENT_CONFIG_PATH w)).
    { unfold consulted_path, or_else.
      destruct (GOOGLE_CLIENT_CREDENTIAL_FILE w) as [[| c' s'] |]; reflexivity. }
    rewrite <- P, F. simpl. now rewrite I.
  - intros w clientPath reason S T F.
    unfold loadClientCredentials. rewrite S. simpl truthy_opt. rewrite T.
    unfold or_else. rewrite T, F. reflexivity.
Qed.

Lemma load_tolerates_absent_or_corrupt_witness :
  loadAccountsConfig first_run = empty_config
  /\ loadAccountsConfig
       (mk_world (Corrupt "Unexpected end of JSON input") Missing no_files None)
     = empty_config
  /\ loadStoredCredentials
       (mk_world Missing (Corrupt "Unexpected token") no_files None)
     = None.
Proof.
  split; [| split].
  - apply (proj1 load_tolerates_absent_or_corrupt (obliging 0 None) first_run).
    left. reflexivity.
  - apply (proj1 load_tolerates_absent_or_corrupt (obliging 0 None)
             (mk_world (Corrupt "Unexpected end of JSON input")
                       Missing no_files None)).
    right. exists "Unexpected end of JSON input". reflexivity.
  - apply (proj1 (proj2 load_tolerates_absent_or_corrupt)
             (mk_world Missing (Corrupt "Unexpected token") no_files None)).
    right. exists "Unexpected token". reflexivity.
Defined.

(** ** The login flow, slice by slice *)

Lemma getUserEmail_fs (O : Oracle) (accessToken : string) (w : world) :
  fs (snd (getUserEmail O accessToken w)) = fs w.
Proof.
  unfold getUserEmail, try_catch, throw.
  destruct (fetch_userinfo O accessToken) as [reason | st txt | [e |]];
    try reflexivity.
  destruct (truthy e); reflexivity.
Qed.

Lemma getUserEmail_kind (O : Oracle) (accessToken : string) (w : world)
      (e : error) :
  fst (getUserEmail O accessToken w) = inl e -> kind e = IdentityLookupError.
Proof.
  unfold getUserEmail, try_catch, throw.
  destruct (fetch_userinfo O accessToken) as [reason | st txt | [m |]];
    simpl; try (intros [= <-]; reflexivity).
  destruct (truthy m); simpl; [discriminate | intros [= <-]; reflexivity].
Qed.

Lemma saveAccount_credentials_json (credentials : AccountCredentials) (w : world) :
  credentials_json (fs (snd (saveAccount credentials w))) = credentials_json (fs w).
Proof. reflexivity. Qed.

Lemma on_catch_is_bail_out (e : error) (st : flow) :
  on_catch e st = bail_out page_error e st.
Proof.
  reflexivity.
Qed.

(** Case analysis over every path of a slice. *)
Ltac slice :=
  repeat match goal with
         | |- context [match ?x with _ => _ end] =>
             match type of x with
             | settled => fail 1
             | option settled => fail 1
             | timer => fail 1
             | _ => destruct x eqn:?
             end
         | |- context [if ?b then _ else _] => destruct b eqn:?
         end.

Lemma bail_out_effect (st s : flow) (page : response) (e : error) :
  promise s = promise st -> timeoutId s = timeoutId st ->
  close_calls s = close_calls st -> on_close s = on_close st ->
  sent s = sent st ->
  failure_page (kind e) = [page] ->
  effect st (bail_out page e s).
Proof.
  intros P T C N S F. apply HandlerFails with e page; simpl;
    rewrite ?P, ?T, ?C, ?N, ?S; auto.
Qed.

Lemma step_effect (O : Oracle) (st : flow) (ev : event) :
  effect st (step O st ev).
Proof.
  destruct ev as [url | i | |]; unfold step.
  - unfold on_request. slice; try (now apply Idle);
      try rewrite on_catch_is_bail_out; now apply bail_out_effect.
  - unfold on_completion. slice; try (now apply Idle).
    + unfold after_getToken. slice; try (now apply Idle);
        try rewrite on_catch_is_bail_out; now apply bail_out_effect.
    + unfold after_getUserEmail. slice;
        try match goal with
            | H : saveAccount _ _ = (inl _, _) |- _ => discriminate H
            end.
      * rewrite on_catch_is_bail_out.
        match goal with
        | H : getUserEmail _ _ _ = (inl ?e, _) |- _ =>
            assert (K : kind e = IdentityLookupError)
              by (eapply getUserEmail_kind; rewrite H; reflexivity)
        end.
        apply bail_out_effect; auto. now rewrite K.
      * now apply HandlerSucceeds.
  - unfold on_timeout. destruct (timeoutId st) eqn:T.
    + now apply TimerRuns.
    + now apply Idle.
    + now apply Idle.
  - unfold on_closed. destruct (on_close st) eqn:N.
    + now apply Idle.
    + apply ServerClosed; simpl; auto. lia.
Qed.

(** A settled promise stays as it is. *)
Lemma step_settled (O : Oracle) (st : flow) (ev : event) (o : settled) :
  promise st = Some o -> promise (step O st ev) = Some o.
Proof.
  intros P.
  destruct (step_effect O st ev) as [H | e page _ H | H | _ _ H | _ _ H];
    rewrite H, P; reflexivity.
Qed.

Lemma run_settled (O : Oracle) (es : list event) (st : flow) (o : settled) :
  promise st = Some o -> promise (run O es st) = Some o.
Proof.
  revert st. induction es as [| ev es IH]; intros st P; simpl; auto.
  apply IH. now apply step_settled.
Qed.

Lemma failure_page_no_timeout (e : error) (page : response) :
  failure_page (kind e) = [page] -> Rejected e <> Rejected timeout_error.
Proof. intros F [= ->]. discriminate F. Qed.

Lemma step_rendezvous (O : Oracle) (st : flow) (ev : event) :
  rendezvous st -> rendezvous (step O st ev).
Proof.
  unfold rendezvous. intros I.
  destruct (step_effect O st ev)
    as [P T C N S | e page F P T C N S | P T C N S
        | T0 T P C N S | N0 N P T C S];
    rewrite P, ?T, C, ?N; destruct (promise st) as [o |].
  - exact I.
  - exact I.
  - destruct I as (I1 & [(I2 & I3) | (I2 & I3)]); rewrite I2;
      (split; [lia |]); [left | right]; now split.
  - split; [lia |]. right.
    split; [| now apply failure_page_no_timeout with page].
    destruct I as [(I1 & _) | (I1 & _)]; now rewrite I1.
  - destruct I as (I1 & [(I2 & I3) | (I2 & I3)]); rewrite I2;
      (split; [lia |]); [left | right]; now split.
  - right. split; [| split; lia].
    destruct I as [(I1 & _) | (I1 & _)]; now rewrite I1.
  - destruct I as (I1 & [(I2 & I3) | (I2 & I3)]); rewrite I2 in T0;
      discriminate.
  - split; [lia |]. left. now split.
  - exact I.
  - destruct I as [(_ & _ & I3) | (I1 & I2 & _)]; [lia |].
    split; [exact I2 |]. right. split; [exact I1 | discriminate].
Qed.

Lemma run_rendezvous (O : Oracle) (es : list event) (st : flow) :
  rendezvous st -> rendezvous (run O es st).
Proof.
  revert st. induction es as [| ev es IH]; intros st I; simpl; auto.
  apply IH. now apply step_rendezvous.
Qed.

Lemma listening_rendezvous (c : closure) (w : world) :
  rendezvous (listening c w).
Proof. left. repeat split. Qed.

(** A slice either leaves the disk alone or has run [saveAccount]
    once, after the identity lookup. *)
Lemma step_disk (O : Oracle) (st : flow) (ev : event) :
  fs (outside (step O st ev)) = fs (outside st)
  \/ exists credentials w,
       fs w = fs (outside st)
       /\ outside (step O st ev) = snd (saveAccount credentials w).
Proof.
  destruct ev as [url | i | |]; unfold step.
  - unfold on_request. slice; left; reflexivity.
  - unfold on_completion. slice; try (left; reflexivity).
    + unfold after_getToken. slice; left; reflexivity.
    + unfold after_getUserEmail. slice;
        match goal with
        | H : getUserEmail ?O ?t ?w0 = (_, ?w1) |- _ =>
            assert (F : fs w1 = fs w0)
              by (rewrite <- (getUserEmail_fs O t w0), H; reflexivity)
        end.
      * left. exact F.
      * match goal with
        | H : saveAccount _ _ = (inl _, _) |- _ => discriminate H
        end.
      * right.
        match goal with
        | H : saveAccount ?a ?w1 = (_, ?w2) |- _ =>
            exists a, w1; split; [exact F | now rewrite H]
        end.
  - unfold on_timeout. destruct (timeoutId st); left; reflexivity.
  - unfold on_closed. destruct (on_close st); left; reflexivity.
Qed.

Lemma step_credentials_json (O : Oracle) (st : flow) (ev : event) :
  credentials_json (fs (outside (step O st ev)))
  = credentials_json (fs (outside st)).
Proof.
  destruct (step_disk O st ev) as [H | (a & w & F & H)]; rewrite H.
  - reflexivity.
  - now rewrite saveAccount_credentials_json, F.
Qed.

Lemma run_credentials_json (O : Oracle) (es : list event) (st : flow) :
  credentials_json (fs (outside (run O es st)))
  = credentials_json (fs (outside st)).
Proof.
  revert st. induction es as [| ev es IH]; intros st; simpl; auto.
  now rewrite IH, step_credentials_json.
Qed.

Lemma exec_credentials_json (w : world) (o : op) :
  credentials_json (fs (exec w o)) = credentials_json (fs w).
Proof.
  destruct o as [credentials | e | e]; unfold exec.
  - reflexivity.
  - unfold setDefaultAccount, bind, gets.
    destruct (lookup e (accounts (loadAccountsConfig w))); reflexivity.
  - unfold removeAccount, bind, gets.
    destruct (lookup e (accounts (loadAccountsConfig w))); reflexivity.
Qed.

(** The slice that finds no refresh token in the token response: it
    answers, tears down, rejects, and does not touch the disk; its
    handler is gone and will not run again. *)
Lemma no_refresh_token_slice (O : Oracle) (st : flow) (i : nat)
      (code : string) (tokens : Token.t) :
  nth_error (inflight st) i = Some (AwaitGetToken code) ->
  getToken O (oauth2Client (captured st)) code = inr tokens ->
  truthy_opt (Token.refresh_token tokens) = false ->
  let st' := step O st (Completion i) in
  fs (outside st') = fs (outside st)
  /\ promise st' = match promise st with
                   | None => Some (Rejected no_refresh_token_error)
                   | p => p
                   end
  /\ sent st' = (sent st ++ [page_no_refresh_token])%list
  /\ inflight st' = drop_nth i (inflight st)
  /\ close_calls st' = S (close_calls st)
  /\ timeoutId st' = match timeoutId st with Armed => Cleared | t => t end.
Proof.
  intros N G T. unfold step, on_completion. rewrite N.
  unfold after_getToken. cbn [captured set_inflight set_outside].
  rewrite G, T. repeat split.
Qed.

(** ** The login flow *)

Lemma authenticate_listening (clientPath : option string) (w : world)
      (st0 : flow) :
  authenticate clientPath w = inr st0 -> st0 = listening (captured st0) w.
Proof.
  unfold authenticate.
  destruct (loadClientCredentials clientPath w); [discriminate |].
  destruct (createOAuth2Client clientPath w); [discriminate |].
  now intros [= <-].
Qed.

(** The handlers keep the closure they were created with. *)
Lemma step_captured (O : Oracle) (st : flow) (ev : event) :
  captured (step O st ev) = captured st.
Proof.
  destruct ev as [url | i | |]; unfold step.
  - unfold on_request. slice; reflexivity.
  - unfold on_completion. slice; try reflexivity.
    + unfold after_getToken. slice; reflexivity.
    + unfold after_getUserEmail. slice; reflexivity.
  - unfold on_timeout. destruct (timeoutId st); reflexivity.
  - unfold on_closed. destruct (on_close st); reflexivity.
Qed.

Lemma run_captured (O : Oracle) (es : list event) (st : flow) :
  captured (run O es st) = captured st.
Proof.
  revert st. induction es as [| ev es IH]; intros st; simpl; auto.
  now rewrite IH, step_captured.
Qed.



(** What the first request leaves behind: no suspended handler, or the
    one handler that waits for the exchange. *)
Lemma first_request (O : Oracle) (c : closure) (w : world)
      (url : option string) :
  inflight (step O (listening c w) (Request url)) = []
  \/ exists code,
       step O (listening c w) (Request url)
       = suspend (AwaitGetToken code) (listening c w).
Proof.
  unfold step, on_request. slice; try (left; reflexivity).
  right. eexists. reflexivity.
Qed.

(** What the first request and the completion of its exchange leave
    behind: no suspended handler, or the one handler that waits for the
    identity lookup. *)
Lemma first_exchange (O : Oracle) (c : closure) (w : world)
      (url : option string) :
  inflight (run O [Request url; Completion 0] (listening c w)) = []
  \/ exists code tokens,
       run O [Request url; Completion 0] (listening c w)
       = suspend (AwaitGetUserEmail tokens)
           (set_outside (with_call w (GetToken (oauth2Client c) code))
                        (listening c w)).
Proof.
  unfold run. cbn [fold_left].
  destruct (first_request O c w url) as [E | [code ->]].
  - left. unfold step at 1, on_completion. rewrite E. simpl. exact E.
  - unfold step, on_completion. cbn [suspend inflight listening app nth_error].
    unfold after_getToken. cbn [captured set_inflight set_outside].
    slice; try (left; reflexivity).
    right. eexists. eexists. reflexivity.
Qed.

Lemma nth_error_singleton {A} (x y : A) (i : nat) :
  nth_error [x] i = Some y -> i = 0 /\ x = y.
Proof.
  destruct i as [| [| i]]; simpl; try discriminate. now intros [= ->].
Qed.

(** C6, as the specification words it, fails on the code in two ways.
    When the timer runs while the exchange is under way, the exchange
    still succeeds without a refresh token, and the flow has failed with
    the timeout, not with the missing refresh token.  And when a second
    callback is under way, the flow fails with the missing refresh token
    of the first, and the handler of the second still writes its account
    to the store. *)
Lemma missing_refresh_token_counterexample :
  (let st := run (obliging 0 None) [callback; Timeout; Completion 0]
                 (listening sample_closure before_login) in
   getToken (obliging 0 None) (oauth2Client sample_closure) "c0de"
   = inr (fresh_tokens None)
   /\ Token.refresh_token (fresh_tokens None) = None
   /\ calls (outside st) = [GetToken (oauth2Client sample_closure) "c0de"]
   /\ promise st = Some (Rejected timeout_error)
   /\ kind timeout_error <> MissingRefreshToken)
  /\ (let st := run selective
                    [Request (Some "/?code=0ther"); callback;
                     Completion 1; Completion 0; Completion 0]
                    (listening sample_closure before_login) in
      promise st = Some (Rejected no_refresh_token_error)
      /\ Object_keys (accounts (loadAccountsConfig (outside st))) = ["a@x.com"]
      /\ length (writes (fs (outside st))) = 1).
Proof. repeat split. discriminate. Qed.

(** C6, amended.  In every run of the login flow, when the exchange of a
    request succeeds and the token response has no refresh token, the
    handler of that request ends there: it answers with the
    no-refresh-token page, calls [server.close], and has written
    nothing: the disk is as the slice found it, and the handler is gone
    without reaching the identity lookup or [saveAccount].  If the flow
    was still pending it is now rejected with the
    missing-refresh-token error, for good; if the timer or another
    handler had ended it before, its outcome stays.  When the request
    was the only event of the flow so far, the flow is rejected with the
    missing-refresh-token error and the disk is as [authenticate] found
    it. *)
Theorem missing_refresh_token_leaves_store (O : Oracle)
        (clientPath : option string) (w : world) (st0 : flow)
        (es : list event) (i : nat) (code : string) (tokens : Token.t) :
  authenticate clientPath w = inr st0 ->
  let st := run O es st0 in
  nth_error (inflight st) i = Some (AwaitGetToken code) ->
  getToken O (oauth2Client (captured st0)) code = inr tokens ->
  truthy_opt (Token.refresh_token tokens) = false ->
  let st' := step O st (Completion i) in
  (fs (outside st') = fs (outside st)
   /\ loadAccountsConfig (outside st') = loadAccountsConfig (outside st)
   /\ sent st' = (sent st ++ [page_no_refresh_token])%list
   /\ inflight st' = drop_nth i (inflight st)
   /\ close_calls st' = S (close_calls st))
  /\ (promise st = None ->
      forall later,
        promise (run O later st')
        = Some (Rejected (Error MissingRefreshToken "No refresh token received")))
  /\ (forall o, promise st = Some o -> promise st' = Some o)
  /\ ((exists url, es = [Request url]) ->
      promise st'
      = Some (Rejected (Error MissingRefreshToken "No refresh token received"))
      /\ fs (outside st') = fs w
      /\ loadAccountsConfig (outside st') = loadAccountsConfig w
      /\ writes (fs (outside st')) = writes (fs w)
      /\ inflight st' = []
      /\ close_calls st' = 1
      /\ timeoutId st' = Cleared).
Proof.
  intros A. cbv zeta. intros N G Tr.
  pose proof (authenticate_listening _ _ _ A) as S0.
  rewrite <- (run_captured O es st0) in G.
  destruct (no_refresh_token_slice O (run O es st0) i code tokens N G Tr)
    as (H1 & H2 & H3 & H4 & H5 & H6).
  cbv zeta in *.
  split; [| split; [| split]].
  - repeat split; try assumption.
    unfold loadAccountsConfig. now rewrite H1.
  - intros P later. apply run_settled. now rewrite H2, P.
  - intros o P. now rewrite H2, P.
  - intros [url ->]. revert N G H1 H2 H3 H4 H5 H6.
    rewrite S0. set (c := captured st0). unfold run. cbn [fold_left].
    destruct (first_request O c w url) as [E | [code' ->]].
    + rewrite E. intros N. destruct i; discriminate N.
    + cbn [suspend inflight listening app]. intros N.
      destruct (nth_error_singleton _ _ _ N) as [-> _].
      cbn [outside promise close_calls timeoutId drop_nth].
      intros _ H1 H2 _ H4 H5 H6. repeat split; try assumption.
      * unfold loadAccountsConfig. now rewrite H1.
      * now rewrite H1.
Qed.

Lemma missing_refresh_token_leaves_store_witness :
  let st := run (obliging 0 None) [callback; Completion 0]
                (listening sample_closure before_login) in
  promise st = Some (Rejected (Error MissingRefreshToken "No refresh token received"))
  /\ fs (outside st) = fs before_login
  /\ loadAccountsConfig (outside st) = loadAccountsConfig before_login
  /\ writes (fs (outside st)) = writes (fs before_login)
  /\ inflight st = []
  /\ close_calls st = 1
  /\ timeoutId st = Cleared.
Proof.
  refine (proj2 (proj2 (proj2
            (missing_refresh_token_leaves_store (obliging 0 None) None
               before_login (listening sample_closure before_login)
               [callback] 0 "c0de" (fresh_tokens None)
               eq_refl eq_refl eq_refl eq_refl))) _).
  exists (Some "/?code=c0de"). reflexivity.
Defined.

(** C7, as the specification words it, fails on the code, which has no
    already-finished flag.  When the timer runs while a handler waits
    for the token exchange, the flow is rejected with the timeout, and
    the handler still runs to its end: it writes the account and calls
    [server.close] a second time.  Two callbacks in flight together both
    run to their end as well: two writes, two [server.close] calls. *)
Lemma rendezvous_counterexample :
  (let st := run (obliging 0 (Some "rt-new"))
                 [callback; Timeout; Completion 0; Completion 0]
                 (listening sample_closure before_login) in
   promise st = Some (Rejected timeout_error)
   /\ close_calls st = 2
   /\ Object_keys (accounts (loadAccountsConfig (outside st))) = ["a@x.com"])
  /\ (let st := run (obliging 0 (Some "rt-new"))
                    [callback; callback; Completion 0; Completion 0;
                     Completion 0; Completion 0; Closed]
                    (listening sample_closure before_login) in
      promise st = Some Resolved
      /\ close_calls st = 2
      /\ length (writes (fs (outside st))) = 2).
Proof. repeat split. Qed.

(** C7, amended.  At every moment of every run of the flow: while the
    promise is pending, either the timer is armed and [server.close]
    has not been called, or a handler has succeeded, the timer is
    cleared, [server.close] has been called and [resolve] waits for the
    server's [close] event.  Once the promise is settled,
    [server.close] has been called at least once, the outcome never
    changes again whatever happens later, and either the timer ran and
    the outcome is the timeout, or a handler ended the flow and the
    timer was cleared before it could run. *)
Theorem rendezvous_settles_once (O : Oracle) (c : closure) (w : world)
        (es : list event) :
  let st := run O es (listening c w) in
  match promise st with
  | None =>
      (timeoutId st = Armed /\ close_calls st = 0 /\ on_close st = 0)
      \/ (timeoutId st = Cleared /\ 1 <= close_calls st /\ 1 <= on_close st)
  | Some o =>
      1 <= close_calls st
      /\ ((timeoutId st = Fired /\ o = Rejected timeout_error)
          \/ (timeoutId st = Cleared /\ o <> Rejected timeout_error))
      /\ forall later, promise (run O later st) = Some o
  end.
Proof.
  cbv zeta.
  pose proof (run_rendezvous O es _ (listening_rendezvous c w)) as I.
  unfold rendezvous in I.
  destruct (promise (run O es (listening c w))) as [o |] eqn:P.
  - destruct I as [I1 I2]. repeat split; auto.
    intros later. now apply run_settled.
  - exact I.
Qed.




(** ** The legacy credential file *)

(** C10.  [isAuthenticated] is true exactly when the legacy file
    [credentials.json] exists and parses.  Neither the store operations
    nor any run of the login flow writes that file, so they never change
    the answer.  Hence after a successful first login the store holds
    the account and a session is resolved from it while
    [isAuthenticated] is still false; and a leftover legacy file makes
    it true although the store holds no account. *)
Theorem isAuthenticated_reads_legacy_file :
  (forall w, isAuthenticated w = true
             <-> exists c, credentials_json (fs w) = Json c)
  /\ (forall w o, isAuthenticated (exec w o) = isAuthenticated w)
  /\ (forall O es st,
         isAuthenticated (outside (run O es st)) = isAuthenticated (outside st))
  /\ (let st := run (obliging 0 (Some "rt-new"))
                    [callback; Completion 0; Completion 0; Closed]
                    (listening sample_closure before_login) in
      authenticate None before_login = inr (listening sample_closure before_login)
      /\ promise st = Some Resolved
      /\ isAuthenticated (outside st) = false
      /\ Object_keys (accounts (loadAccountsConfig (outside st))) = ["a@x.com"]
      /\ exists client,
           fst (getAuthenticatedClient (obliging 0 None) None (outside st))
           = inr client)
  /\ (let w := mk_world Missing (Json leftover) no_files None in
      isAuthenticated w = true
      /\ accounts (loadAccountsConfig w) = []
      /\ exists msg,
           fst (getAuthenticatedClient (obliging 0 None) None w)
           = inl (Error NoAccountsConfigured msg)).
Proof.
  split; [| split; [| split; [| split]]].
  - intros w. unfold isAuthenticated, loadStoredCredentials.
    destruct (credentials_json (fs w)) as [| reason | c]; split;
      try discriminate; try (intros [c' H]; discriminate).
    + intros _. now exists c.
    + reflexivity.
  - intros w o. unfold isAuthenticated, loadStoredCredentials.
    now rewrite exec_credentials_json.
  - intros O es st. unfold isAuthenticated, loadStoredCredentials.
    now rewrite run_credentials_json.
  - cbv zeta. repeat split. eexists. reflexivity.
  - cbv zeta. repeat split. eexists. reflexivity.
Qed.

(** * Further properties of the sources *)

(** ** More on objects as association lists *)

Lemma get_prop_None_keys {V} (k : string) (o : object V) :
  get_prop k o = None <-> ~ In k (Object_keys o).
Proof.
  induction o as [| [k' v'] rest IH]; simpl.
  - tauto.
  - destruct (String.eqb k k') eqn:E.
    + apply String.eqb_eq in E. subst k'. split; [discriminate | tauto].
    + apply String.eqb_neq in E. rewrite IH. split.
      * intros H [F | F]; [now elim E | now elim H].
      * tauto.
Qed.

Lemma get_prop_In {V} (k : string) (v : V) (o : object V) :
  get_prop k o = Some v -> In (k, v) o.
Proof.
  induction o as [| [k' v'] rest IH]; simpl; [discriminate |].
  destruct (String.eqb k k') eqn:E.
  - apply String.eqb_eq in E. subst k'. intros [= ->]. now left.
  - intros H. right. now apply IH.
Qed.

Lemma In_get_prop {V} (k : string) (v : V) (o : object V) :
  NoDup (Object_keys o) -> In (k, v) o -> get_prop k o = Some v.
Proof.
  induction o as [| [k' v'] rest IH]; simpl; [tauto |].
  intros N [H | H].
  - injection H as -> ->. now rewrite String.eqb_refl.
  - inversion N as [| x l Hx Hl]; subst.
    destruct (String.eqb k k') eqn:E.
    + apply String.eqb_eq in E. subst k'. elim Hx.
      change k with (fst (k, v)). now apply in_map.
    + now apply IH.
Qed.

Lemma Object_keys_set_prop {V} (k : string) (v : V) (o : object V) :
  Object_keys (set_prop k v o)
  = match get_prop k o with
    | Some _ => Object_keys o
    | None => (Object_keys o ++ [k])%list
    end.
Proof.
  induction o as [| [k' v'] rest IH]; simpl; [reflexivity |].
  destruct (String.eqb k k') eqn:E; simpl; [reflexivity |].
  rewrite IH. now destruct (get_prop k rest).
Qed.

Lemma In_set_prop {V} (k j : string) (v x : V) (o : object V) :
  In (j, x) (set_prop k v o) -> (j = k /\ x = v) \/ In (j, x) o.
Proof.
  induction o as [| [k' v'] rest IH]; simpl.
  - intros [[= <- <-] | []]. now left.
  - destruct (String.eqb k k') eqn:E; simpl.
    + apply String.eqb_eq in E. subst k'.
      intros [[= <- <-] | H]; [now left | now right; right].
    + intros [H | H]; [now right; left |].
      destruct (IH H) as [L | R]; [now left | now right; right].
Qed.

Lemma Object_keys_delete_prop {V} (k : string) (o : object V) :
  Object_keys (delete_prop k o)
  = filter (fun j => negb (String.eqb k j)) (Object_keys o).
Proof.
  induction o as [| [k' v'] rest IH]; simpl; [reflexivity |].
  destruct (String.eqb k k'); simpl; now rewrite IH.
Qed.

Lemma In_delete_prop {V} (k j : string) (x : V) (o : object V) :
  In (j, x) (delete_prop k o) -> In (j, x) o /\ j <> k.
Proof.
  unfold delete_prop. rewrite filter_In. simpl.
  intros [H E]. split; [exact H |].
  apply negb_true_iff, String.eqb_neq in E. congruence.
Qed.

Lemma NoDup_set_prop {V} (k : string) (v : V) (o : object V) :
  NoDup (Object_keys o) -> NoDup (Object_keys (set_prop k v o)).
Proof.
  intros N. rewrite Object_keys_set_prop.
  destruct (get_prop k o) eqn:G; [exact N |].
  apply get_prop_None_keys in G.
  apply NoDup_rev in N. rewrite <- (rev_involutive (_ ++ _)).
  apply NoDup_rev. rewrite rev_app_distr. simpl. constructor; [| exact N].
  now rewrite <- in_rev.
Qed.

(** ** The store commands *)

Lemma removeAccount_load (e : string) (w : world) (a : AccountCredentials) :
  get_prop e (accounts (loadAccountsConfig w)) = Some a ->
  fst (removeAccount e w) = inr tt
  /\ loadAccountsConfig (snd (removeAccount e w)) =
     {| default_account :=
          match default_account (loadAccountsConfig w) with
          | Some d =>
              if String.eqb d e then
                hd_error (Object_keys
                            (delete_prop e (accounts (loadAccountsConfig w))))
              else Some d
          | None => None
          end;
        accounts := delete_prop e (accounts (loadAccountsConfig w)) |}.
Proof.
  intros G. unfold removeAccount, bind, gets. rewrite (lookup_own _ _ _ G).
  split; reflexivity.
Qed.

Lemma setDefaultAccount_load (e : string) (w : world) (a : AccountCredentials) :
  get_prop e (accounts (loadAccountsConfig w)) = Some a ->
  fst (setDefaultAccount e w) = inr tt
  /\ loadAccountsConfig (snd (setDefaultAccount e w)) =
     {| default_account := Some e;
        accounts := accounts (loadAccountsConfig w) |}.
Proof.
  intros G. unfold setDefaultAccount, bind, gets. rewrite (lookup_own _ _ _ G).
  split; reflexivity.
Qed.

(** The two commands on a name that is not stored. *)
Lemma setDefaultAccount_absent (e : string) (w : world) :
  get_prop e (accounts (loadAccountsConfig w)) = None ->
  setDefaultAccount e w
  = if inherited e
    then saveAccountsConfig
           {| default_account := Some e;
              accounts := accounts (loadAccountsConfig w) |} w
    else (inl (Error AccountNotFound ("Account not found: " ++ e)), w).
Proof.
  intros G. unfold setDefaultAccount, bind, gets.
  rewrite (lookup_absent _ _ G). now destruct (inherited e).
Qed.

Lemma removeAccount_absent (e : string) (w : world) :
  get_prop e (accounts (loadAccountsConfig w)) = None ->
  removeAccount e w
  = if inherited e
    then saveAccountsConfig
           {| default_account :=
                match default_account (loadAccountsConfig w) with
                | Some d =>
                    if String.eqb d e
                    then hd_error (Object_keys (accounts (loadAccountsConfig w)))
                    else Some d
                | None => None
                end;
              accounts := accounts (loadAccountsConfig w) |} w
    else (inl (Error AccountNotFound ("Account not found: " ++ e)), w).
Proof.
  intros G. unfold removeAccount, bind, gets.
  rewrite (lookup_absent _ _ G). destruct (inherited e); [| reflexivity].
  now rewrite (delete_prop_absent _ _ G).
Qed.

Lemma exec_preserves_store_ok (w : world) (o : op) :
  store_ok (loadAccountsConfig w) ->
  store_ok (loadAccountsConfig (exec w o)).
Proof.
  intros (N & K & D). destruct o as [c | e | e]; unfold exec.
  - rewrite saveAccount_load. split; [| split]; simpl.
    + now apply NoDup_set_prop.
    + intros k a H. destruct (In_set_prop _ _ _ _ _ H) as [[-> ->] | H'];
        [reflexivity | now apply K].
    + intros _.
      destruct (default_account (loadAccountsConfig w)) as [[| ch s] |];
        simpl; discriminate.
  - destruct (get_prop e (accounts (loadAccountsConfig w))) as [a |] eqn:G.
    + destruct (setDefaultAccount_load e w a G) as [_ ->].
      split; [| split]; simpl; auto. discriminate.
    + rewrite (setDefaultAccount_absent e w G).
      destruct (inherited e); [| simpl; now repeat split].
      rewrite saveAccountsConfig_load.
      split; [| split]; simpl; auto. discriminate.
  - destruct (get_prop e (accounts (loadAccountsConfig w))) as [a |] eqn:G.
    + destruct (removeAccount_load e w a G) as [_ ->].
      split; [| split]; simpl.
      * rewrite Object_keys_delete_prop. now apply NoDup_filter.
      * intros k x H. apply In_delete_prop in H. now apply K.
      * intros NE.
        assert (NE0 : accounts (loadAccountsConfig w) <> []).
        { intros E0. rewrite E0 in G. discriminate. }
        specialize (D NE0).
        destruct (default_account (loadAccountsConfig w)) as [d |];
          [| now elim D].
        destruct (String.eqb d e); [| discriminate].
        destruct (delete_prop e (accounts (loadAccountsConfig w)))
          as [| [k x] rest]; [now elim NE | discriminate].
    + rewrite (removeAccount_absent e w G).
      destruct (inherited e); [| simpl; now repeat split].
      rewrite saveAccountsConfig_load.
      split; [| split]; simpl; auto.
      intros NE. specialize (D NE).
      destruct (default_account (loadAccountsConfig w)) as [d |];
        [| now elim D].
      destruct (String.eqb d e); [| discriminate].
      destruct (accounts (loadAccountsConfig w)) as [| [k x] rest];
        [now elim NE | discriminate].
Qed.

Lemma exec_all_store_ok (ops : list op) (w : world) :
  store_ok (loadAccountsConfig w) ->
  store_ok (loadAccountsConfig (exec_all ops w)).
Proof.
  unfold exec_all. revert w.
  induction ops as [| o ops IH]; intros w H; simpl; auto.
  apply IH. now apply exec_preserves_store_ok.
Qed.


Lemma empty_store_ok : store_ok empty_config.
Proof.
  split; [constructor | split]; simpl; [tauto | intros H; now elim H].
Qed.


(** X1.  [saveAccount] is an upsert by e-mail.  For a record whose
    e-mail has an [@] in it (which no integer-like key and no inherited
    name has), on a store file that is missing, unreadable or holds an
    accounts configuration: the saved record is what the store then
    holds under its e-mail, every other key holds what it held, and the
    key order is kept, a new key going last. *)
Theorem saveAccount_upserts (c : AccountCredentials) (w : world) :
  includes "@" (email c) = true ->
  let before := accounts (loadAccountsConfig w) in
  let after := accounts (loadAccountsConfig (snd (saveAccount c w))) in
  fst (saveAccount c w) = inr tt
  /\ get_prop (email c) after = Some c
  /\ (forall e, e <> email c -> get_prop e after = get_prop e before)
  /\ Object_keys after
     = match get_prop (email c) before with
       | Some _ => Object_keys before
       | None => (Object_keys before ++ [email c])%list
       end.
Proof.
  intros _. cbv zeta. rewrite saveAccount_load. cbn [accounts].
  split; [reflexivity |]. split; [apply get_prop_set_prop_eq |].
  split; [| apply Object_keys_set_prop].
  intros e N. now apply get_prop_set_prop_neq.
Qed.

Lemma saveAccount_upserts_witness :
  get_prop "a@x.com"
    (accounts (loadAccountsConfig
                 (snd (saveAccount bob
                         (mk_world (Json two_accounts) Missing no_files None)))))
  = get_prop "a@x.com" (accounts two_accounts).
Proof.
  apply (proj1 (proj2 (proj2
           (saveAccount_upserts bob
              (mk_world (Json two_accounts) Missing no_files None)
              eq_refl)))).
  discriminate.
Defined.



Lemma saves_keep_default (l : list AccountCredentials) (w : world) :
  truthy_opt (default_account (loadAccountsConfig w)) = true ->
  default_account (loadAccountsConfig (exec_all (map Save l) w))
  = default_account (loadAccountsConfig w).
Proof.
  unfold exec_all. revert w.
  induction l as [| c l IH]; intros w T; cbn [map fold_left exec];
    [reflexivity |].
  assert (D : default_account (loadAccountsConfig (snd (saveAccount c w)))
              = default_account (loadAccountsConfig w)).
  { rewrite saveAccount_load. simpl. now rewrite T. }
  rewrite IH; [exact D | now rewrite D].
Qed.

(** X3.  The default is sticky under [saveAccount]: a store without a
    default takes the first saved account (with a non-empty e-mail) as
    its default, and no later save, of a new or of a stored account,
    changes a default once it is set. *)
Theorem first_saved_account_stays_default (c : AccountCredentials)
        (l : list AccountCredentials) (w : world) :
  truthy (email c) = true ->
  let config := loadAccountsConfig (exec_all (map Save (c :: l)) w) in
  match default_account (loadAccountsConfig w) with
  | Some (String ch d) => default_account config = Some (String ch d)
  | _ => default_account config = Some (email c)
  end.
Proof.
  intros T. cbv zeta.
  change (exec_all (map Save (c :: l)) w)
    with (exec_all (map Save l) (snd (saveAccount c w))).
  rewrite saves_keep_default; rewrite saveAccount_load; simpl.
  - destruct (default_account (loadAccountsConfig w)) as [[| ch d] |];
      reflexivity.
  - destruct (default_account (loadAccountsConfig w)) as [[| ch d] |];
      simpl; auto.
Qed.

Lemma first_saved_account_stays_default_witness :
  default_account (loadAccountsConfig
                     (exec_all (map Save [alice; bob; alice]) first_run))
  = Some "a@x.com".
Proof.
  exact (first_saved_account_stays_default alice [bob; alice] first_run eq_refl).
Defined.

(** X4.  [removeAccount] on a stored e-mail succeeds and removes that
    key only: the key is gone, every other key holds what it held, the
    remaining keys keep their order; if the removed key was the default,
    the first remaining key becomes the default, or none when nothing
    remains, and any other default is kept.  Afterwards a session for
    the removed (non-empty) e-mail is refused as account-not-found,
    unless the e-mail is the name of an inherited member, which is
    found in every store. *)
Theorem removeAccount_removes_one (O : Oracle) (e : string) (w : world)
        (a : AccountCredentials) :
  get_prop e (accounts (loadAccountsConfig w)) = Some a ->
  let before := loadAccountsConfig w in
  let w' := snd (removeAccount e w) in
  let after := loadAccountsConfig w' in
  fst (removeAccount e w) = inr tt
  /\ get_prop e (accounts after) = None
  /\ (forall k, k <> e -> get_prop k (accounts after) = get_prop k (accounts before))
  /\ Object_keys (accounts after)
     = filter (fun k => negb (String.eqb e k)) (Object_keys (accounts before))
  /\ (default_account before = Some e ->
      default_account after = hd_error (Object_keys (accounts after)))
  /\ (default_account before <> Some e ->
      default_account after = default_account before)
  /\ (truthy e = true ->
      if inherited e
      then getAuthenticatedClient O (Some e) w'
           = (inr (OAuth2.new None None REDIRECT_URI), w')
      else exists msg,
             getAuthenticatedClient O (Some e) w'
             = (inl (Error AccountNotFound msg), w')).
Proof.
  intros G. cbv zeta.
  destruct (removeAccount_load e w a G) as [R L]. rewrite L. cbn [accounts default_account].
  split; [exact R |].
  assert (Gone : get_prop e (delete_prop e (accounts (loadAccountsConfig w))) = None).
  { apply get_prop_None_keys. rewrite Object_keys_delete_prop, filter_In.
    rewrite String.eqb_refl. intros [_ F]. discriminate. }
  split; [exact Gone |].
  split; [intros k N; now apply get_prop_delete_prop_neq |].
  split; [apply Object_keys_delete_prop |].
  split; [| split].
  - intros D. rewrite D, String.eqb_refl. reflexivity.
  - intros D. destruct (default_account (loadAccountsConfig w)) as [d |];
      [| reflexivity].
    destruct (String.eqb d e) eqn:E; [| reflexivity].
    apply String.eqb_eq in E. subst d. now elim D.
  - intros T.
    assert (GA : getAccount (Some e) (snd (removeAccount e w))
                 = if inherited e then Some (Inherited e) else None).
    { rewrite (getAccount_at _ _ T), L. now apply lookup_absent. }
    destruct (inherited e).
    + now apply getAuthenticatedClient_inherited with e.
    + destruct (getAuthenticatedClient_no_account O _ _ GA) as [msg H].
      simpl in H. rewrite T in H. now exists msg.
Qed.

Lemma removeAccount_removes_one_witness :
  let w := mk_world (Json two_accounts) Missing no_files None in
  default_account (loadAccountsConfig (snd (removeAccount "a@x.com" w)))
  = hd_error (Object_keys
                (accounts (loadAccountsConfig (snd (removeAccount "a@x.com" w))))).
Proof.
  exact (proj1 (proj2 (proj2 (proj2 (proj2
           (removeAccount_removes_one (obliging 0 None) "a@x.com"
              (mk_world (Json two_accounts) Missing no_files None)
              alice eq_refl)))))
           eq_refl).
Defined.

(** X5.  [setDefaultAccount] and [removeAccount] on an e-mail the store
    does not hold.  When the e-mail is not the name of a member
    inherited from [Object.prototype], both throw the account-not-found
    error that names the e-mail and leave the world exactly as it was:
    nothing is written.  When it is such a name ([constructor],
    [toString], ...), the guard [!config.accounts[email]] lets it
    through and neither throws: [setDefaultAccount] writes the name as
    default although no account has it, and [removeAccount] writes the
    file again with the accounts it held. *)
Theorem unknown_account_is_refused (e : string) (w : world) :
  get_prop e (accounts (loadAccountsConfig w)) = None ->
  let config := loadAccountsConfig w in
  (inherited e = false ->
   setDefaultAccount e w
   = (inl (Error AccountNotFound ("Account not found: " ++ e)), w)
   /\ removeAccount e w
      = (inl (Error AccountNotFound ("Account not found: " ++ e)), w))
  /\ (inherited e = true ->
      let w1 := snd (setDefaultAccount e w) in
      let w2 := snd (removeAccount e w) in
      fst (setDefaultAccount e w) = inr tt
      /\ loadAccountsConfig w1
         = {| default_account := Some e; accounts := accounts config |}
      /\ writes (fs w1) = (writes (fs w) ++ [loadAccountsConfig w1])%list
      /\ fst (removeAccount e w) = inr tt
      /\ accounts (loadAccountsConfig w2) = accounts config
      /\ (default_account config <> Some e ->
          default_account (loadAccountsConfig w2) = default_account config)
      /\ writes (fs w2) = (writes (fs w) ++ [loadAccountsConfig w2])%list).
Proof.
  intros G. cbv zeta.
  rewrite (setDefaultAccount_absent e w G), (removeAccount_absent e w G).
  split; intros I; rewrite I; [split; reflexivity |].
  repeat split.
  intros D. simpl.
  destruct (default_account (loadAccountsConfig w)) as [d |]; [| reflexivity].
  destruct (String.eqb d e) eqn:E; [| reflexivity].
  apply String.eqb_eq in E. subst d. now elim D.
Qed.

Lemma unknown_account_is_refused_witness :
  removeAccount "nobody@x.com" first_run
  = (inl (Error AccountNotFound "Account not found: nobody@x.com"), first_run)
  /\ loadAccountsConfig (snd (setDefaultAccount "constructor" first_run))
     = {| default_account := Some "constructor"; accounts := [] |}.
Proof.
  split.
  - exact (proj2 (proj1 (unknown_account_is_refused "nobody@x.com" first_run
                           eq_refl)
                        eq_refl)).
  - exact (proj1 (proj2 (proj2 (unknown_account_is_refused "constructor"
                                  first_run eq_refl)
                               eq_refl))).
Defined.

(** X6.  After [setDefaultAccount] on a stored, non-empty e-mail the
    accounts are what they were and a session requested without an
    e-mail is built from that account. *)
Theorem setDefaultAccount_selects (e : string) (w : world)
        (a : AccountCredentials) :
  get_prop e (accounts (loadAccountsConfig w)) = Some a ->
  truthy e = true ->
  let w' := snd (setDefaultAccount e w) in
  fst (setDefaultAccount e w) = inr tt
  /\ accounts (loadAccountsConfig w') = accounts (loadAccountsConfig w)
  /\ default_account (loadAccountsConfig w') = Some e
  /\ getAccount None w' = Some (Own a).
Proof.
  intros G T. cbv zeta.
  destruct (setDefaultAccount_load e w a G) as [R L].
  split; [exact R |]. unfold getAccount. rewrite L. simpl.
  rewrite T, (lookup_own _ _ _ G). now repeat split.
Qed.

Lemma setDefaultAccount_selects_witness :
  getAccount None
    (snd (setDefaultAccount "b@x.com"
            (mk_world (Json two_accounts) Missing no_files None)))
  = Some (Own bob).
Proof.
  exact (proj2 (proj2 (proj2
           (setDefaultAccount_selects "b@x.com"
              (mk_world (Json two_accounts) Missing no_files None)
              bob eq_refl eq_refl)))).
Defined.

(** X7.  Starting from the empty store, after any sequence of
    [saveAccount], [setDefaultAccount] and [removeAccount] calls,
    whatever their arguments, every key of the store occurs once, every
    record is stored under its own e-mail, and a store that holds an
    account has a default. *)
Theorem commands_keep_store_well_formed (w0 : world) (ops : list op) :
  loadAccountsConfig w0 = empty_config ->
  let config := loadAccountsConfig (exec_all ops w0) in
  NoDup (Object_keys (accounts config))
  /\ (forall k a, get_prop k (accounts config) = Some a -> email a = k)
  /\ (accounts config <> [] -> exists d, default_account config = Some d).
Proof.
  intros H0. cbv zeta.
  assert (I : store_ok (loadAccountsConfig w0))
    by (rewrite H0; apply empty_store_ok).
  destruct (exec_all_store_ok ops w0 I) as (N & K & D).
  split; [exact N |]. split.
  - intros k a G. apply K. now apply get_prop_In.
  - intros NE. specialize (D NE).
    destruct (default_account _) as [d |]; [now exists d | now elim D].
Qed.

Lemma commands_keep_store_well_formed_witness :
  let config :=
    loadAccountsConfig
      (exec_all [Save alice; SetDefault "constructor"; Save bob;
                 Remove "a@x.com"; Remove "toString"; Save alice] first_run) in
  NoDup (Object_keys (accounts config))
  /\ (forall k a, get_prop k (accounts config) = Some a -> email a = k)
  /\ (accounts config <> [] -> exists d, default_account config = Some d).
Proof.
  exact (commands_keep_store_well_formed first_run
           [Save alice; SetDefault "constructor"; Save bob;
            Remove "a@x.com"; Remove "toString"; Save alice] eq_refl).
Defined.








(** ** Logout and the identity lookup *)

(** X10.  ([logout] starts with a [require] of the accounts module whose
    result it does not use; it is taken to load, as it does under Bun.)
    After [logout] both credential files are gone: the store is
    empty, [isAuthenticated] is false, no saved client credential is
    left, and a request for a session is refused without touching the
    world, as no-accounts when no e-mail is given and as
    account-not-found when one is given, unless the e-mail is the name
    of an inherited member: that one is still found, and the client
    returned for it has no credential at all.  A second [logout]
    changes nothing. *)
Theorem logout_forgets_everything (O : Oracle) (accountEmail : option string)
        (w : world) :
  let w' := logout w in
  loadAccountsConfig w' = empty_config
  /\ isAuthenticated w' = false
  /\ saved_client_credentials w' = None
  /\ client_files (fs w') = client_files (fs w)
  /\ (truthy_opt accountEmail = false ->
      exists msg,
        getAuthenticatedClient O accountEmail w'
        = (inl (Error NoAccountsConfigured msg), w'))
  /\ (forall e, accountEmail = Some e -> truthy e = true ->
        if inherited e
        then getAuthenticatedClient O accountEmail w'
             = (inr (OAuth2.new None None REDIRECT_URI), w')
        else exists msg,
               getAuthenticatedClient O accountEmail w'
               = (inl (Error AccountNotFound msg), w'))
  /\ logout w' = w'.
Proof.
  cbv zeta.
  split; [reflexivity |]. split; [reflexivity |]. split; [reflexivity |].
  split; [reflexivity |]. split; [| split; [| reflexivity]].
  - intros F.
    assert (G : getAccount accountEmail (logout w) = None)
      by (unfold getAccount; rewrite F; reflexivity).
    destruct (getAuthenticatedClient_no_account O _ _ G) as [msg H].
    rewrite F in H. now exists msg.
  - intros e -> T.
    assert (G : getAccount (Some e) (logout w)
                = if inherited e then Some (Inherited e) else None)
      by (rewrite (getAccount_at _ _ T); now apply lookup_absent).
    destruct (inherited e).
    + now apply getAuthenticatedClient_inherited with e.
    + destruct (getAuthenticatedClient_no_account O _ _ G) as [msg H].
      simpl in H. rewrite T in H. now exists msg.
Qed.

Lemma logout_forgets_everything_witness :
  (exists msg,
      getAuthenticatedClient (obliging 0 None) (Some "a@x.com")
        (logout (mk_world (Json two_accounts) Missing no_files None))
      = (inl (Error AccountNotFound msg),
         logout (mk_world (Json two_accounts) Missing no_files None)))
  /\ getAuthenticatedClient (obliging 0 None) (Some "toString")
       (logout (mk_world (Json two_accounts) Missing no_files None))
     = (inr (OAuth2.new None None REDIRECT_URI),
        logout (mk_world (Json two_accounts) Missing no_files None)).
Proof.
  split.
  - exact (proj1 (proj2 (proj2 (proj2 (proj2 (proj2
             (logout_forgets_everything (obliging 0 None) (Some "a@x.com")
                (mk_world (Json two_accounts) Missing no_files None)))))))
             "a@x.com" eq_refl eq_refl).
  - exact (proj1 (proj2 (proj2 (proj2 (proj2 (proj2
             (logout_forgets_everything (obliging 0 None) (Some "toString")
                (mk_world (Json two_accounts) Missing no_files None)))))))
             "toString" eq_refl eq_refl).
Defined.

Lemma prefix_append (s t u : string) :
  u = s ++ t -> String.prefix s u = true.
Proof.
  intros ->. induction s as [| ch s IH]; simpl.
  - now destruct t.
  - destruct (Ascii.ascii_dec ch ch) as [_ | N]; [exact IH | now elim N].
Qed.

Lemma getUserEmail_cases (O : Oracle) (accessToken : string) (w : world) :
  getUserEmail O accessToken w =
  (match fetch_userinfo O accessToken with
   | Ok (Some (String ch s)) => inr (String ch s)
   | Ok _ =>
       inl (Error IdentityLookupError
              ("Failed to fetch user email: "
               ++ "Email not found in user info response"))
   | NotOk status errorText =>
       inl (Error IdentityLookupError
              ("Failed to fetch user email: "
               ++ ("API responded with " ++ show_nat status ++ ": " ++ errorText)))
   | FetchThrows reason =>
       inl (Error IdentityLookupError ("Failed to fetch user email: " ++ reason))
   end,
   with_call w (FetchUserinfo accessToken)).
Proof.
  unfold getUserEmail, try_catch, throw.
  destruct (fetch_userinfo O accessToken) as [reason | st txt | [[| ch m] |]];
    reflexivity.
Qed.

Lemma getUserEmail_ok_iff (O : Oracle) (accessToken : string) (w : world)
      (e : string) :
  fst (getUserEmail O accessToken w) = inr e
  <-> fetch_userinfo O accessToken = Ok (Some e) /\ truthy e = true.
Proof.
  rewrite getUserEmail_cases. cbn [fst].
  destruct (fetch_userinfo O accessToken) as [reason | st txt | [[| ch m] |]];
    split; try (intros H; discriminate H);
    try (intros [H _]; discriminate H).
  - intros [H T]. injection H as <-. discriminate T.
  - intros [= <-]. now split.
  - intros [[= <-] _]. reflexivity.
Qed.

Lemma getUserEmail_error (O : Oracle) (accessToken : string) (w : world)
      (err : error) :
  fst (getUserEmail O accessToken w) = inl err ->
  kind err = IdentityLookupError
  /\ String.prefix "Failed to fetch user email: " (message err) = true.
Proof.
  rewrite getUserEmail_cases. cbn [fst].
  destruct (fetch_userinfo O accessToken) as [reason | st txt | [[| ch m] |]];
    intros H; try discriminate H; injection H as <-; cbn [kind message];
    (split; [reflexivity | eapply prefix_append; reflexivity]).
Qed.

(** X11.  [getUserEmail] makes one request and writes nothing.  It
    returns the e-mail exactly when the endpoint answers with a
    non-empty [email]; a failed request, a response that is not ok and a
    response without [email] all end in an error whose message begins
    with [Failed to fetch user email: ]. *)
Theorem getUserEmail_outcomes (O : Oracle) (accessToken : string) (w : world) :
  let r := getUserEmail O accessToken w in
  (forall e, fst r = inr e
             <-> fetch_userinfo O accessToken = Ok (Some e) /\ truthy e = true)
  /\ (forall err, fst r = inl err ->
        kind err = IdentityLookupError
        /\ String.prefix "Failed to fetch user email: " (message err) = true)
  /\ fs (snd r) = fs w
  /\ calls (snd r) = (calls w ++ [FetchUserinfo accessToken])%list.
Proof.
  cbv zeta. split; [intros e; apply getUserEmail_ok_iff |].
  split; [intros err; apply getUserEmail_error |].
  rewrite getUserEmail_cases. split; reflexivity.
Qed.

Lemma getUserEmail_outcomes_witness :
  fst (getUserEmail (obliging 0 None) "at-new" first_run) = inr "a@x.com".
Proof.
  apply (proj1 (getUserEmail_outcomes (obliging 0 None) "at-new" first_run)).
  split; reflexivity.
Defined.

(** ** The resolver and the start of the login *)

(** X12.  A client credential saved in [credentials.json] takes
    precedence over everything else: whatever explicit path is given,
    whatever the environment variable and the client files hold, the
    resolver returns the saved pair, and [authenticate] starts listening
    with a client built from it. *)
Theorem saved_client_credentials_win (w : world) (c : Legacy.Credentials)
        (id secret : string) (clientPath : option string) :
  credentials_json (fs w) = Json c ->
  Legacy.client_id c = Some id -> Legacy.client_secret c = Some secret ->
  truthy id = true -> truthy secret = true ->
  let creds := {| app_client_id := id; app_client_secret := secret |} in
  loadClientCredentials clientPath w = inr creds
  /\ authenticate clientPath w
     = inr (listening {| clientConfig := creds;
                         oauth2Client :=
                           OAuth2.new (Some id) (Some secret) REDIRECT_URI |} w).
Proof.
  intros F I S Ti Ts. cbv zeta.
  assert (L : loadClientCredentials clientPath w
              = inr {| app_client_id := id; app_client_secret := secret |}).
  { unfold loadClientCredentials, saved_client_credentials,
      loadStoredCredentials.
    now rewrite F, I, S, Ti, Ts. }
  split; [exact L |].
  unfold authenticate, createOAuth2Client. now rewrite L.
Qed.

Lemma saved_client_credentials_win_witness :
  loadClientCredentials (Some "missing.json")
    (mk_world Missing (Json saved_legacy) no_files (Some "/etc/other.json"))
  = inr {| app_client_id := "id"; app_client_secret := "secret" |}.
Proof.
  exact (proj1 (saved_client_credentials_win
                  (mk_world Missing (Json saved_legacy) no_files
                            (Some "/etc/other.json"))
                  saved_legacy "id" "secret" (Some "missing.json")
                  eq_refl eq_refl eq_refl eq_refl eq_refl)).
Defined.

(** ** Runs of the login flow *)

Lemma exchange_failed_slice (O : Oracle) (st : flow) (i : nat) (code : string)
      (reason : string) :
  nth_error (inflight st) i = Some (AwaitGetToken code) ->
  getToken O (oauth2Client (captured st)) code = inl reason ->
  step O st (Completion i)
  = on_catch (Error TokenExchangeFailed reason)
      (set_outside
         (with_call (outside st) (GetToken (oauth2Client (captured st)) code))
         (set_inflight (drop_nth i (inflight st)) st)).
Proof.
  intros N G. unfold step, on_completion. rewrite N.
  unfold after_getToken. cbn [captured set_inflight set_outside].
  now rewrite G.
Qed.

Lemma identity_ok_slice (O : Oracle) (st : flow) (i : nat) (tokens : Token.t)
      (userEmail : string) :
  nth_error (inflight st) i = Some (AwaitGetUserEmail tokens) ->
  fetch_userinfo O (Token.access_token tokens) = Ok (Some userEmail) ->
  truthy userEmail = true ->
  step O st (Completion i)
  = server_close_then_resolve
      (clearTimeout
         (respond page_success
            (set_outside
               (snd (saveAccount
                       (accountCredentials (captured st) userEmail tokens)
                       (with_call (outside st)
                                  (FetchUserinfo (Token.access_token tokens)))))
               (set_inflight (drop_nth i (inflight st)) st)))).
Proof.
  intros N F T. unfold step, on_completion. rewrite N.
  unfold after_getUserEmail. cbn [outside captured set_inflight].
  rewrite getUserEmail_cases, F.
  destruct userEmail as [| ch s]; [discriminate T | reflexivity].
Qed.

Lemma identity_failed_slice (O : Oracle) (st : flow) (i : nat)
      (tokens : Token.t) (err : error) :
  nth_error (inflight st) i = Some (AwaitGetUserEmail tokens) ->
  fst (getUserEmail O (Token.access_token tokens) (outside st)) = inl err ->
  step O st (Completion i)
  = on_catch err
      (set_outside
         (with_call (outside st) (FetchUserinfo (Token.access_token tokens)))
         (set_inflight (drop_nth i (inflight st)) st)).
Proof.
  intros N F. unfold step, on_completion. rewrite N.
  unfold after_getUserEmail. cbn [outside captured set_inflight].
  rewrite getUserEmail_cases in *. cbn [fst] in F. now rewrite F.
Qed.

(** X14.  In every run of the login flow, when the identity lookup of a
    handler returns a non-empty e-mail, that handler stores one record
    under that e-mail: the resolved client credential with the tokens of
    its exchange.  A store without a default takes the e-mail as
    default, an existing default is kept.  The handler answers with the
    success page, clears the timer, calls [server.close] and leaves the
    promise as it is: [resolve] runs only on the server's [close] event,
    and it resolves the login only if nothing has settled it before.
    When nothing else happens in the login (one callback, the completion
    of its exchange and of its lookup, then the [close] event, the timer
    not running in between), the login is resolved, the server was
    closed once, and the one write is that of the account. *)
Theorem login_stores_the_account (O : Oracle) (clientPath : option string)
        (w : world) (st0 : flow) (es : list event) (i : nat)
        (tokens : Token.t) (rt userEmail : string) :
  authenticate clientPath w = inr st0 ->
  let st := run O es st0 in
  nth_error (inflight st) i = Some (AwaitGetUserEmail tokens) ->
  Token.refresh_token tokens = Some rt -> truthy rt = true ->
  fetch_userinfo O (Token.access_token tokens) = Ok (Some userEmail) ->
  truthy userEmail = true ->
  let st' := step O st (Completion i) in
  let record :=
    {| email := userEmail;
       client_id := app_client_id (clientConfig (captured st0));
       client_secret := app_client_secret (clientConfig (captured st0));
       access_token := Token.access_token tokens;
       refresh_token := rt;
       scope := Token.scope tokens;
       token_type := Token.token_type tokens;
       expiry_date := Token.expiry_date tokens |} in
  let stored (before : AccountsConfig) :=
    {| default_account :=
         match default_account before with
         | Some (String ch d) => Some (String ch d)
         | _ => Some userEmail
         end;
       accounts := set_prop userEmail record (accounts before) |} in
  (loadAccountsConfig (outside st') = stored (loadAccountsConfig (outside st))
   /\ get_prop userEmail (accounts (loadAccountsConfig (outside st'))) = Some record
   /\ writes (fs (outside st'))
      = (writes (fs (outside st)) ++ [loadAccountsConfig (outside st')])%list
   /\ calls (outside st')
      = (calls (outside st) ++ [FetchUserinfo (Token.access_token tokens)])%list
   /\ sent st' = (sent st ++ [page_success])%list
   /\ inflight st' = drop_nth i (inflight st)
   /\ close_calls st' = S (close_calls st)
   /\ promise st' = promise st
   /\ promise (step O st' Closed)
      = match promise st with None => Some Resolved | p => p end)
  /\ ((exists url, es = [Request url; Completion 0]) ->
      let done := step O st' Closed in
      promise st' = None
      /\ promise done = Some Resolved
      /\ sent done = [page_success]
      /\ close_calls done = 1 /\ timeoutId done = Cleared /\ inflight done = []
      /\ loadAccountsConfig (outside done) = stored (loadAccountsConfig w)
      /\ writes (fs (outside done))
         = (writes (fs w) ++ [loadAccountsConfig (outside done)])%list
      /\ exists code,
           calls (outside done)
           = (calls w ++ [GetToken (oauth2Client (captured st0)) code;
                          FetchUserinfo (Token.access_token tokens)])%list).
Proof.
  intros A. cbv zeta. intros N R Tr F Te.
  pose proof (authenticate_listening _ _ _ A) as S0.
  rewrite (identity_ok_slice O _ i tokens userEmail N F Te).
  rewrite (run_captured O es st0).
  assert (C : accountCredentials (captured st0) userEmail tokens
              = {| email := userEmail;
                   client_id := app_client_id (clientConfig (captured st0));
                   client_secret := app_client_secret (clientConfig (captured st0));
                   access_token := Token.access_token tokens;
                   refresh_token := rt;
                   scope := Token.scope tokens;
                   token_type := Token.token_type tokens;
                   expiry_date := Token.expiry_date tokens |})
    by (unfold accountCredentials, or_else; now rewrite R, Tr).
  rewrite C. clear C.
  set (record := {| email := userEmail;
                    client_id := app_client_id (clientConfig (captured st0));
                    client_secret := app_client_secret (clientConfig (captured st0));
                    access_token := Token.access_token tokens;
                    refresh_token := rt;
                    scope := Token.scope tokens;
                    token_type := Token.token_type tokens;
                    expiry_date := Token.expiry_date tokens |}).
  assert (D : forall before : AccountsConfig,
             (if negb (truthy_opt (default_account before))
              then Some userEmail
              else default_account before)
             = match default_account before with
               | Some (String ch d) => Some (String ch d)
               | _ => Some userEmail
               end)
    by (intros before; destruct (default_account before) as [[| ch d] |];
        reflexivity).
  assert (L : forall w0 : world,
             loadAccountsConfig
               (snd (saveAccount record
                       (with_call w0 (FetchUserinfo (Token.access_token tokens)))))
             = {| default_account :=
                    match default_account (loadAccountsConfig w0) with
                    | Some (String ch d) => Some (String ch d)
                    | _ => Some userEmail
                    end;
                  accounts := set_prop userEmail record
                                       (accounts (loadAccountsConfig w0)) |}).
  { intros w0. rewrite saveAccount_load. cbn [email record].
    change (loadAccountsConfig
              (with_call w0 (FetchUserinfo (Token.access_token tokens))))
      with (loadAccountsConfig w0).
    now rewrite D. }
  split.
  - cbn [outside server_close_then_resolve clearTimeout respond set_outside
         set_inflight].
    split; [apply L |].
    split; [rewrite L; apply get_prop_set_prop_eq |].
    split; [reflexivity |].
    split; [reflexivity |]. split; [reflexivity |]. split; [reflexivity |].
    split; [reflexivity |]. split; reflexivity.
  - intros [url ->]. revert N. rewrite S0.
    set (c := captured st0) in *.
    destruct (first_exchange O c w url) as [E | (code & tokens' & ->)].
    + rewrite E. intros N. destruct i; discriminate N.
    + cbn [suspend inflight listening set_outside app]. intros N.
      destruct (nth_error_singleton _ _ _ N) as [-> _].
      cbn [step on_closed on_close server_close_then_resolve clearTimeout
           respond set_outside set_inflight settle suspend promise sent
           close_calls timeoutId inflight outside listening app drop_nth].
      split; [reflexivity |]. split; [reflexivity |]. split; [reflexivity |].
      split; [reflexivity |]. split; [reflexivity |]. split; [reflexivity |].
      split; [rewrite L; reflexivity |]. split; [reflexivity |].
      exists code. cbn [saveAccount bind gets saveAccountsConfig with_fs
                        with_call calls snd].
      now rewrite <- app_assoc.
Qed.

Lemma login_stores_the_account_witness :
  let st := run (obliging 0 (Some "rt-new"))
                [callback; Completion 0; Completion 0; Closed]
                (listening sample_closure before_login) in
  promise st = Some Resolved
  /\ Object_keys (accounts (loadAccountsConfig (outside st))) = ["a@x.com"]
  /\ default_account (loadAccountsConfig (outside st)) = Some "a@x.com".
Proof.
  pose proof (proj2 (login_stores_the_account (obliging 0 (Some "rt-new")) None
                       before_login (listening sample_closure before_login)
                       [callback; Completion 0] 0
                       (fresh_tokens (Some "rt-new")) "rt-new" "a@x.com"
                       eq_refl eq_refl eq_refl eq_refl eq_refl eq_refl)
                    (ex_intro _ (Some "/?code=c0de") eq_refl)) as H.
  cbv zeta in H. destruct H as (_ & P & _ & _ & _ & _ & L & _).
  split; [exact P |].
  change (run (obliging 0 (Some "rt-new"))
              [callback; Completion 0; Completion 0; Closed]
              (listening sample_closure before_login))
    with (step (obliging 0 (Some "rt-new"))
               (step (obliging 0 (Some "rt-new"))
                     (run (obliging 0 (Some "rt-new")) [callback; Completion 0]
                          (listening sample_closure before_login))
                     (Completion 0))
               Closed).
  rewrite L. split; reflexivity.
Defined.

(** X15.  The event that makes the flow fail never writes: whatever the
    state of the flow, a step that turns the pending promise into a
    rejected one leaves every file as it was and issues no
    [writeFileSync]. *)
Theorem failing_step_writes_nothing (O : Oracle) (st : flow) (ev : event)
        (e : error) :
  promise st = None ->
  promise (step O st ev) = Some (Rejected e) ->
  fs (outside (step O st ev)) = fs (outside st).
Proof.
  intros P0 P1.
  destruct ev as [url | i | |]; unfold step in *.
  - unfold on_request in *. revert P1. slice; reflexivity.
  - unfold on_completion in *. revert P1. slice; try reflexivity.
    + unfold after_getToken. slice; reflexivity.
    + unfold after_getUserEmail. slice;
        match goal with
        | H : getUserEmail ?O ?t ?w0 = (_, ?w1) |- _ =>
            assert (F : fs w1 = fs w0)
              by (rewrite <- (getUserEmail_fs O t w0), H; reflexivity)
        end.
      * intros _. exact F.
      * match goal with
        | H : saveAccount _ _ = (inl _, _) |- _ => discriminate H
        end.
      * simpl. rewrite P0. discriminate.
  - unfold on_timeout. destruct (timeoutId st); reflexivity.
  - unfold on_closed. destruct (on_close st); reflexivity.
Qed.

Lemma failing_step_writes_nothing_witness :
  fs (outside (step (obliging 0 None) (listening sample_closure before_login)
                    (Request (Some "/"))))
  = fs before_login.
Proof.
  exact (failing_step_writes_nothing (obliging 0 None)
           (listening sample_closure before_login) (Request (Some "/"))
           no_code_error eq_refl eq_refl).
Defined.

(** X16.  In every run of the login flow, when the code-for-token
    exchange of a handler throws, that handler answers with the generic
    500 page, clears the timer, calls [server.close] and ends, without
    asking the identity endpoint and without writing anything.  If the
    login was still pending it is now rejected with the very error the
    exchange threw (kind and message), for good; if the timer or another
    handler had settled it before, its outcome stays.  When the callback
    is the only event before the exchange completes, the login is
    rejected with that error, the server was closed once and the disk is
    as [authenticate] found it. *)
Theorem failed_exchange_rejects (O : Oracle) (clientPath : option string)
        (w : world) (st0 : flow) (es : list event) (i : nat)
        (code reason : string) :
  authenticate clientPath w = inr st0 ->
  let st := run O es st0 in
  nth_error (inflight st) i = Some (AwaitGetToken code) ->
  getToken O (oauth2Client (captured st0)) code = inl reason ->
  let st' := step O st (Completion i) in
  let generic :=
    {| status := 500; body := "<h1>Error during authentication</h1>" |} in
  (fs (outside st') = fs (outside st)
   /\ calls (outside st')
      = (calls (outside st) ++ [GetToken (oauth2Client (captured st0)) code])%list
   /\ sent st' = (sent st ++ [generic])%list
   /\ inflight st' = drop_nth i (inflight st)
   /\ close_calls st' = S (close_calls st))
  /\ (promise st = None ->
      forall later,
        promise (run O later st')
        = Some (Rejected (Error TokenExchangeFailed reason)))
  /\ (forall o, promise st = Some o -> promise st' = Some o)
  /\ ((exists url, es = [Request url]) ->
      promise st' = Some (Rejected (Error TokenExchangeFailed reason))
      /\ sent st' = [generic]
      /\ close_calls st' = 1 /\ timeoutId st' = Cleared /\ inflight st' = []
      /\ fs (outside st') = fs w
      /\ calls (outside st')
         = (calls w ++ [GetToken (oauth2Client (captured st0)) code])%list).
Proof.
  intros A. cbv zeta. intros N G.
  pose proof (authenticate_listening _ _ _ A) as S0.
  rewrite <- (run_captured O es st0) in G.
  rewrite (exchange_failed_slice O _ i code reason N G).
  rewrite (run_captured O es st0).
  split; [repeat split |]. split; [| split].
  - intros P later. apply run_settled. simpl. now rewrite P.
  - intros o P. simpl. now rewrite P.
  - intros [url ->]. revert N. rewrite S0.
    set (c := captured st0) in *. unfold run. cbn [fold_left].
    destruct (first_request O c w url) as [E | [code' ->]].
    + rewrite E. intros N. destruct i; discriminate N.
    + cbn [suspend inflight listening app]. intros N.
      destruct (nth_error_singleton _ _ _ N) as [-> _].
      repeat split.
Qed.

Lemma failed_exchange_rejects_witness :
  promise (run (failing 0) [callback; Completion 0]
               (listening sample_closure before_login))
  = Some (Rejected (Error TokenExchangeFailed "invalid_grant")).
Proof.
  exact (proj1 (proj2 (proj2 (proj2
           (failed_exchange_rejects (failing 0) None before_login
              (listening sample_closure before_login)
              [callback] 0 "c0de" "invalid_grant" eq_refl eq_refl eq_refl)))
           (ex_intro _ (Some "/?code=c0de") eq_refl))).
Defined.

(** X17.  In every run of the login flow, when the exchange of a handler
    has succeeded and the identity endpoint gives no non-empty e-mail
    (the request fails, the response is not ok, or it has no [email]),
    that handler answers with the generic 500 page, clears the timer,
    calls [server.close] and ends without writing an account, although
    valid tokens were obtained; the error it rejects with has a message
    that begins with [Failed to fetch user email: ].  If the login was
    still pending it is now rejected with that error, for good; if it
    had been settled before, its outcome stays.  When the callback and
    the completion of its exchange are the only events before, the login
    is rejected with that error, the server was closed once and the disk
    is as [authenticate] found it. *)
Theorem failed_identity_lookup_rejects (O : Oracle)
        (clientPath : option string) (w : world) (st0 : flow)
        (es : list event) (i : nat) (tokens : Token.t) :
  authenticate clientPath w = inr st0 ->
  let st := run O es st0 in
  nth_error (inflight st) i = Some (AwaitGetUserEmail tokens) ->
  (forall e, fetch_userinfo O (Token.access_token tokens) = Ok (Some e) ->
             truthy e = false) ->
  let st' := step O st (Completion i) in
  let generic :=
    {| status := 500; body := "<h1>Error during authentication</h1>" |} in
  exists err,
    kind err = IdentityLookupError
    /\ String.prefix "Failed to fetch user email: " (message err) = true
    /\ (fs (outside st') = fs (outside st)
        /\ loadAccountsConfig (outside st') = loadAccountsConfig (outside st)
        /\ sent st' = (sent st ++ [generic])%list
        /\ inflight st' = drop_nth i (inflight st)
        /\ close_calls st' = S (close_calls st))
    /\ (promise st = None ->
        forall later, promise (run O later st') = Some (Rejected err))
    /\ (forall o, promise st = Some o -> promise st' = Some o)
    /\ ((exists url, es = [Request url; Completion 0]) ->
        promise st' = Some (Rejected err)
        /\ sent st' = [generic]
        /\ close_calls st' = 1 /\ timeoutId st' = Cleared /\ inflight st' = []
        /\ fs (outside st') = fs w
        /\ loadAccountsConfig (outside st') = loadAccountsConfig w).
Proof.
  intros A. cbv zeta. intros N NoMail.
  pose proof (authenticate_listening _ _ _ A) as S0.
  destruct (fst (getUserEmail O (Token.access_token tokens)
                              (outside (run O es st0))))
    as [err | e] eqn:GU.
  - exists err.
    destruct (getUserEmail_error O _ _ err GU) as [K1 K2].
    rewrite (identity_failed_slice O _ i tokens err N GU).
    split; [exact K1 |]. split; [exact K2 |].
    split; [repeat split |]. split; [| split].
    + intros P later. apply run_settled. simpl. now rewrite P.
    + intros o P. simpl. now rewrite P.
    + intros [url ->]. revert N. rewrite S0.
      set (c := captured st0) in *.
      destruct (first_exchange O c w url) as [E | (code & tokens' & ->)].
      * rewrite E. intros N. destruct i; discriminate N.
      * cbn [suspend inflight listening set_outside app]. intros N.
        destruct (nth_error_singleton _ _ _ N) as [-> _].
        repeat split.
  - exfalso.
    destruct (proj1 (getUserEmail_ok_iff O _ _ e) GU) as [F T].
    rewrite (NoMail e F) in T. discriminate.
Qed.

Lemma failed_identity_lookup_rejects_witness :
  let O := {| Date_now := 0;
              refreshAccessToken := fun _ => inl "unused";
              getToken := fun _ _ => inr (fresh_tokens (Some "rt-new"));
              fetch_userinfo := fun _ => NotOk 401 "Unauthorized";
              URL_searchParams := fun _ => inr [("code", "c0de")] |} in
  loadAccountsConfig
    (outside (run O [callback; Completion 0; Completion 0]
                  (listening sample_closure before_login)))
  = loadAccountsConfig before_login.
Proof.
  cbv zeta.
  destruct (failed_identity_lookup_rejects
              {| Date_now := 0;
                 refreshAccessToken := fun _ => inl "unused";
                 getToken := fun _ _ => inr (fresh_tokens (Some "rt-new"));
                 fetch_userinfo := fun _ => NotOk 401 "Unauthorized";
                 URL_searchParams := fun _ => inr [("code", "c0de")] |}
              None before_login (listening sample_closure before_login)
              [callback; Completion 0] 0 (fresh_tokens (Some "rt-new"))
              eq_refl eq_refl ltac:(discriminate))
    as (err & _ & _ & _ & _ & _ & H).
  exact (proj2 (proj2 (proj2 (proj2 (proj2 (proj2
           (H (ex_intro _ (Some "/?code=c0de") eq_refl)))))))).
Defined.

Lemma ignored_request (O : Oracle) (st : flow) (url : option string) :
  url = None \/ url = Some EmptyString \/ url = Some "/favicon.ico" ->
  step O st (Request url) = st.
Proof. intros [-> | [-> | ->]]; reflexivity. Qed.

(** X18.  Requests without a URL and requests for [/favicon.ico] are
    ignored: they are not answered and change nothing.  So when only
    such requests arrive before the five minutes are over, the login is
    rejected with the timeout error, the server is closed once, no
    answer has been sent and the world is exactly as [authenticate]
    found it. *)
Theorem timeout_after_ignored_requests (O : Oracle) (c : closure) (w : world)
        (urls : list (option string)) :
  (forall url, In url urls ->
     url = None \/ url = Some EmptyString \/ url = Some "/favicon.ico") ->
  run O (map Request urls) (listening c w) = listening c w
  /\ let st := run O (map Request urls ++ [Timeout]) (listening c w) in
     promise st
     = Some (Rejected (Error AuthenticationTimeout
                             "Authentication timeout (5 minutes)"))
     /\ timeoutId st = Fired /\ close_calls st = 1
     /\ sent st = [] /\ inflight st = [] /\ outside st = w.
Proof.
  intros I.
  assert (R : run O (map Request urls) (listening c w) = listening c w).
  { unfold run. generalize (listening c w) as st.
    induction urls as [| url urls IH]; intros st; cbn [map fold_left];
      [reflexivity |].
    rewrite ignored_request by (apply I; now left).
    apply IH. intros u Hu. apply I. now right. }
  split; [exact R |]. cbv zeta.
  unfold run in *. rewrite fold_left_app, R. now repeat split.
Qed.

Lemma timeout_after_ignored_requests_witness :
  promise (run (obliging 0 None)
               (map Request [Some "/favicon.ico"; None] ++ [Timeout])
               (listening sample_closure before_login))
  = Some (Rejected (Error AuthenticationTimeout
                          "Authentication timeout (5 minutes)")).
Proof.
  refine (proj1 (proj2 (timeout_after_ignored_requests (obliging 0 None)
                          sample_closure before_login
                          [Some "/favicon.ico"; None] _))).
  intros url [<- | [<- | []]]; [right; right; reflexivity | left; reflexivity].
Defined.

(** ** A refresh is persisted *)

Lemma getAccount_after_refresh (accountEmail : option string) (w w' : world)
      (a upd : AccountCredentials) :
  (forall k x, get_prop k (accounts (loadAccountsConfig w)) = Some x ->
               email x = k) ->
  getAccount accountEmail w = Some (Own a) ->
  loadAccountsConfig w'
  = {| default_account :=
         if negb (truthy_opt (default_account (loadAccountsConfig w)))
         then Some (email a)
         else default_account (loadAccountsConfig w);
       accounts := set_prop (email a) upd (accounts (loadAccountsConfig w)) |} ->
  getAccount accountEmail w' = Some (Own upd)
  /\ Object_keys (accounts (loadAccountsConfig w'))
     = Object_keys (accounts (loadAccountsConfig w)).
Proof.
  intros K G L.
  assert (Own : get_prop (email a) (accounts (loadAccountsConfig w)) = Some a).
  { unfold getAccount in G.
    destruct (truthy_opt accountEmail).
    - destruct accountEmail as [e |]; [| discriminate].
      apply lookup_Own_inv in G. now rewrite (K e a G).
    - destruct (truthy_opt (default_account (loadAccountsConfig w))).
      + destruct (default_account (loadAccountsConfig w)) as [d |];
          [| discriminate].
        apply lookup_Own_inv in G. now rewrite (K d a G).
      + destruct (Object_keys (accounts (loadAccountsConfig w)))
          as [| first rest]; [discriminate |].
        apply lookup_Own_inv in G. now rewrite (K first a G). }
  split.
  - unfold getAccount in *. rewrite L. cbn [default_account accounts].
    destruct (truthy_opt accountEmail) eqn:Te.
    + destruct accountEmail as [e |]; [| discriminate].
      apply lookup_Own_inv in G.
      rewrite <- (K e a G). apply lookup_own, get_prop_set_prop_eq.
    + destruct (truthy_opt (default_account (loadAccountsConfig w))) eqn:Td.
      * simpl. rewrite Td.
        destruct (default_account (loadAccountsConfig w)) as [d |];
          [| discriminate].
        apply lookup_Own_inv in G.
        rewrite <- (K d a G). apply lookup_own, get_prop_set_prop_eq.
      * simpl.
        destruct (truthy (email a)) eqn:Ta.
        -- apply lookup_own, get_prop_set_prop_eq.
        -- rewrite Object_keys_set_prop, Own.
           destruct (Object_keys (accounts (loadAccountsConfig w)))
             as [| first rest]; [discriminate |].
           apply lookup_Own_inv in G.
           rewrite <- (K first a G). apply lookup_own, get_prop_set_prop_eq.
  - rewrite L. cbn [accounts]. now rewrite Object_keys_set_prop, Own.
Qed.

(** X19.  A refresh is persisted and not repeated.  On a store whose
    records sit under their own e-mails, after a session was resolved
    with a successful refresh, resolving the same selector again finds
    the refreshed record and, when its new [expiry_date] is not in the
    past, hands out a client with the refreshed tokens without calling
    the token endpoint or writing again; the set of stored e-mails is
    what it was. *)
Theorem refreshed_tokens_are_reused (O : Oracle) (w : world)
        (accountEmail : option string) (a : AccountCredentials)
        (credentials : Token.t) :
  (forall k x, get_prop k (accounts (loadAccountsConfig w)) = Some x ->
               email x = k) ->
  getAccount accountEmail w = Some (Own a) ->
  needs_refresh O a = true ->
  refreshAccessToken O (client_of a) = inr credentials ->
  needs_refresh O (updatedAccount a credentials) = false ->
  let w1 := snd (getAuthenticatedClient O accountEmail w) in
  getAccount accountEmail w1 = Some (Own (updatedAccount a credentials))
  /\ getAuthenticatedClient O accountEmail w1
     = (inr (client_of (updatedAccount a credentials)), w1)
  /\ Object_keys (accounts (loadAccountsConfig w1))
     = Object_keys (accounts (loadAccountsConfig w)).
Proof.
  intros K G N R N'. cbv zeta.
  rewrite (getAuthenticatedClient_found O w accountEmail a G), N, R.
  cbn [snd].
  set (w1 := snd (saveAccount (updatedAccount a credentials)
                              (with_call w (RefreshAccessToken (client_of a))))).
  assert (L : loadAccountsConfig w1
              = {| default_account :=
                     if negb (truthy_opt (default_account (loadAccountsConfig w)))
                     then Some (email a)
                     else default_account (loadAccountsConfig w);
                   accounts := set_prop (email a) (updatedAccount a credentials)
                                        (accounts (loadAccountsConfig w)) |})
    by (unfold w1; rewrite saveAccount_load; reflexivity).
  destruct (getAccount_after_refresh accountEmail w w1 a
              (updatedAccount a credentials) K G L) as [G1 K1].
  split; [exact G1 |]. split; [| exact K1].
  now rewrite (getAuthenticatedClient_found O w1 accountEmail _ G1), N'.
Qed.

Lemma refreshed_tokens_are_reused_witness :
  let w1 := snd (getAuthenticatedClient (obliging 1000 None) None
                                        (one_account 500)) in
  getAuthenticatedClient (obliging 1000 None) None w1
  = (inr (client_of (updatedAccount (account "a@x.com" 500) (fresh_tokens None))),
     w1).
Proof.
  refine (proj1 (proj2 (refreshed_tokens_are_reused (obliging 1000 None)
                          (one_account 500) None (account "a@x.com" 500)
                          (fresh_tokens None) _ eq_refl eq_refl eq_refl eq_refl))).
  intros k x. simpl.
  destruct (String.eqb k "a@x.com") eqn:E; [| discriminate].
  apply String.eqb_eq in E. now intros [= <-].
Defined.

(** ** formatter.ts *)

Lemma length_append (s t : string) :
  String.length (s ++ t) = String.length s + String.length t.
Proof. induction s as [| ch s IH]; simpl; [reflexivity | now rewrite IH]. Qed.

Lemma length_substring_0 (n : nat) (s : string) :
  String.length (String.substring 0 n s) = Nat.min n (String.length s).
Proof.
  revert s. induction n as [| n IH]; intros [| ch s]; simpl; auto.
Qed.

Lemma substring_0_split (n : nat) (s : string) :
  exists rest, s = String.substring 0 n s ++ rest.
Proof.
  revert s. induction n as [| n IH]; intros [| ch s]; simpl.
  - now exists EmptyString.
  - now exists (String ch s).
  - now exists EmptyString.
  - destruct (IH s) as [rest E]. exists rest. now rewrite <- E.
Qed.

(** X20.  [truncate] keeps a text that fits and otherwise cuts it to
    [maxLength] code units, the last three being dots: for a limit of 3
    or more the result is never longer than the limit.  Below 3 the
    bound fails: a text that does not fit becomes the three dots
    alone. *)
Theorem truncate_fits (text : string) (maxLength : Z) :
  ((3 <= maxLength)%Z ->
   (Z.of_nat (String.length (truncate text maxLength)) <= maxLength)%Z)
  /\ ((Z.of_nat (String.length text) <= maxLength)%Z ->
      truncate text maxLength = text)
  /\ ((3 <= maxLength < Z.of_nat (String.length text))%Z ->
      Z.of_nat (String.length (truncate text maxLength)) = maxLength)
  /\ ((maxLength < 3)%Z -> (maxLength < Z.of_nat (String.length text))%Z ->
      truncate text maxLength = "...").
Proof.
  unfold truncate, substring_to.
  destruct (Z.leb_spec (Z.of_nat (String.length text)) maxLength) as [L | G].
  - repeat split; auto; intros; lia.
  - repeat split; try lia.
    + intros M. rewrite length_append, length_substring_0. simpl. lia.
    + intros M. rewrite length_append, length_substring_0. simpl. lia.
    + intros M _. replace (Z.to_nat (maxLength - 3)) with 0 by lia.
      now destruct text.
Qed.

Lemma truncate_fits_witness :
  (Z.of_nat (String.length (truncate "a rather long subject line" 10)) <= 10)%Z
  /\ truncate "short" 2 = "...".
Proof.
  split.
  - apply (proj1 (truncate_fits "a rather long subject line" 10)). lia.
  - apply (proj2 (proj2 (proj2 (truncate_fits "short" 2)))); simpl; lia.
Defined.

(** X21.  What [truncate] keeps is the beginning of the text: the
    result is the text itself or a prefix of it followed by three dots.
    For a limit of 3 or more, truncating twice is truncating once. *)
Theorem truncate_keeps_prefix (text : string) (maxLength : Z) :
  (truncate text maxLength = text
   \/ exists kept rest,
        text = kept ++ rest /\ truncate text maxLength = kept ++ "...")
  /\ ((3 <= maxLength)%Z ->
      truncate (truncate text maxLength) maxLength = truncate text maxLength).
Proof.
  split.
  - unfold truncate, substring_to.
    destruct (Z.leb_spec (Z.of_nat (String.length text)) maxLength) as [L | G];
      [now left | right].
    destruct (substring_0_split (Z.to_nat (maxLength - 3)) text) as [rest E].
    now exists (String.substring 0 (Z.to_nat (maxLength - 3)) text), rest.
  - intros M.
    assert (B : (Z.of_nat (String.length (truncate text maxLength))
                 <= maxLength)%Z).
    { unfold truncate, substring_to.
      destruct (Z.leb_spec (Z.of_nat (String.length text)) maxLength)
        as [L | G]; [exact L |].
      rewrite length_append, length_substring_0. simpl. lia. }
    unfold truncate at 1. apply Z.leb_le in B. now rewrite B.
Qed.

Lemma truncate_keeps_prefix_witness :
  truncate (truncate "a rather long subject line" 10) 10
  = truncate "a rather long subject line" 10.
Proof.
  apply (proj2 (truncate_keeps_prefix "a rather long subject line" 10)). lia.
Defined.

(** ** drive.ts: export formats *)

(** The walk over the four keys of [EXPORT_FORMATS]. *)
Ltac four_types mimeType :=
  unfold Drive.EXPORT_FORMATS, Drive.GOOGLE_DOCS_MIME_TYPES;
  cbn [get_prop existsb];
  destruct (String.eqb mimeType "application/vnd.google-apps.document") eqn:?;
  [| destruct (String.eqb mimeType "application/vnd.google-apps.spreadsheet") eqn:?;
     [| destruct (String.eqb mimeType "application/vnd.google-apps.presentation") eqn:?;
        [| destruct (String.eqb mimeType "application/vnd.google-apps.drawing") eqn:? ]]].

Lemma google_docs_have_formats (mimeType : string) :
  match get_prop mimeType Drive.EXPORT_FORMATS with
  | Some _ => existsb (String.eqb mimeType) Drive.GOOGLE_DOCS_MIME_TYPES = true
  | None => existsb (String.eqb mimeType) Drive.GOOGLE_DOCS_MIME_TYPES = false
  end.
Proof. four_types mimeType; reflexivity. Qed.

(** No key of the table and no format of a type is an inherited name. *)
Lemma export_formats_are_plain (mimeType : string)
      (formats : object Drive.format_config) :
  get_prop mimeType Drive.EXPORT_FORMATS = Some formats ->
  inherited mimeType = false
  /\ forall format, In format (Object_keys formats) -> inherited format = false.
Proof.
  four_types mimeType; intros [= <-];
    try match goal with
        | H : String.eqb mimeType _ = true |- _ =>
            apply String.eqb_eq in H; subst mimeType
        end;
    (split; [reflexivity |]);
    intros format I; simpl in I;
    repeat match goal with
           | H : _ \/ _ |- _ => destruct H as [<- | H]
           | H : False |- _ => elim H
           end;
    reflexivity.
Qed.

Lemma get_prop_Some_keys {V} (k : string) (o : object V) :
  (exists v, get_prop k o = Some v) <-> In k (Object_keys o).
Proof.
  destruct (get_prop k o) as [v |] eqn:G.
  - split; [intros _ | intros _; now exists v].
    apply get_prop_In in G. change k with (fst (k, v)). now apply in_map.
  - split; [intros [v H]; discriminate |].
    intros H. apply get_prop_None_keys in G. now elim G.
Qed.

(** X22.  [getAvailableFormats] and [downloadFile] agree, inherited
    names apart.  For a file type and a non-empty requested format
    neither of which is the name of a member inherited from
    [Object.prototype], [downloadFile] accepts the format exactly when
    [getAvailableFormats] lists it for that type; and a listed format is
    accepted in every case.  On inherited names the two differ: for a
    Google Workspace type a format such as [toString] is not listed and
    yet accepted, the export being requested without a MIME type under
    the file name followed by [undefined]; for a file type such as
    [constructor] nothing is listed and [original] is accepted all the
    same. *)
Theorem listed_formats_are_the_accepted_ones (mimeType fileName format : string) :
  truthy format = true ->
  let accepted :=
    exists plan,
      Drive.downloadFile_plan mimeType fileName (Some format) = inr plan in
  let listed := In format (Drive.getAvailableFormats mimeType) in
  (inherited mimeType = false -> inherited format = false ->
   (accepted <-> listed))
  /\ (listed -> accepted)
  /\ (existsb (String.eqb mimeType) Drive.GOOGLE_DOCS_MIME_TYPES = true ->
      inherited format = true ->
      ~ listed
      /\ Drive.downloadFile_plan mimeType fileName (Some format)
         = inr (fileName ++ "undefined", Drive.Export None))
  /\ (inherited mimeType = true ->
      Drive.getAvailableFormats mimeType = []
      /\ (accepted <-> format = "original")).
Proof.
  intros T. cbv zeta.
  unfold Drive.downloadFile_plan, Drive.getAvailableFormats, lookup.
  pose proof (google_docs_have_formats mimeType) as H.
  pose proof (export_formats_are_plain mimeType) as Pl.
  unfold or_else. simpl truthy_opt. rewrite T.
  destruct (get_prop mimeType Drive.EXPORT_FORMATS) as [formats |].
  - (* a Google Workspace type *)
    rewrite H. destruct (Pl formats eq_refl) as [Pm Pf].
    rewrite <- get_prop_Some_keys.
    split; [| split; [| split]].
    + intros _ I. rewrite I.
      destruct (get_prop format formats) as [cfg |].
      * split; intros _; eexists; reflexivity.
      * split; intros [x F]; discriminate.
    + intros [cfg ->]. eexists. reflexivity.
    + intros _ I.
      assert (G : get_prop format formats = None).
      { destruct (get_prop format formats) as [cfg |] eqn:G; [| reflexivity].
        assert (L : In format (Object_keys formats))
          by (apply get_prop_Some_keys; now exists cfg).
        rewrite (Pf format L) in I. discriminate. }
      rewrite G, I. split; [intros [cfg F]; discriminate | reflexivity].
    + intros I. rewrite Pm in I. discriminate.
  - (* any other type *)
    rewrite H. simpl andb.
    assert (Other : (exists plan : string * Drive.transfer,
                        (if negb (String.eqb format "original")
                         then inl ("Failed to download file: "
                                   ++ "Format conversion is only supported for Google Workspace files (Docs, Sheets, Slides)")
                         else inr (fileName, Drive.Media)) = inr plan)
                    <-> format = "original").
    { destruct (String.eqb format "original") eqn:E; simpl.
      - apply String.eqb_eq in E. split; [auto | intros _; eexists; reflexivity].
      - apply String.eqb_neq in E. split; [intros [x F]; discriminate | tauto]. }
    split; [| split; [| split]].
    + intros I _. rewrite I, Other. simpl. intuition.
    + destruct (inherited mimeType); simpl; [tauto |].
      intros [<- | []]. apply Other. reflexivity.
    + discriminate.
    + intros I. rewrite I. split; [reflexivity | exact Other].
Qed.

Lemma listed_formats_are_the_accepted_ones_witness :
  ((exists plan,
       Drive.downloadFile_plan "application/vnd.google-apps.spreadsheet"
                               "budget" (Some "csv") = inr plan)
   <-> In "csv" (Drive.getAvailableFormats "application/vnd.google-apps.spreadsheet"))
  /\ Drive.downloadFile_plan "application/vnd.google-apps.document"
                             "notes" (Some "toString")
     = inr ("notesundefined", Drive.Export None).
Proof.
  split.
  - exact (proj1 (listed_formats_are_the_accepted_ones
                    "application/vnd.google-apps.spreadsheet" "budget" "csv"
                    eq_refl)
                 eq_refl eq_refl).
  - exact (proj2 (proj1 (proj2 (proj2
             (listed_formats_are_the_accepted_ones
                "application/vnd.google-apps.document" "notes" "toString"
                eq_refl)))
             eq_refl eq_refl)).
Defined.

(** X23.  Without a requested format [downloadFile] never fails on the
    format: a Google Workspace file is exported as PDF under its name
    followed by [.pdf], any other file is fetched as it is under its own
    name. *)
Theorem default_format_is_accepted (mimeType fileName : string)
        (format : option string) :
  truthy_opt format = false ->
  Drive.downloadFile_plan mimeType fileName format
  = if existsb (String.eqb mimeType) Drive.GOOGLE_DOCS_MIME_TYPES
    then inr (fileName ++ ".pdf", Drive.Export (Some "application/pdf"))
    else inr (fileName, Drive.Media).
Proof.
  intros T. unfold Drive.downloadFile_plan. rewrite T.
  assert (P : or_else format "pdf" = "pdf")
    by (destruct format as [[| ch s] |]; [reflexivity | discriminate | reflexivity]).
  rewrite P. simpl andb. cbv iota. unfold lookup.
  four_types mimeType; reflexivity.
Qed.

Lemma default_format_is_accepted_witness :
  Drive.downloadFile_plan "application/vnd.google-apps.document" "notes" None
  = inr ("notes.pdf", Drive.Export (Some "application/pdf")).
Proof.
  exact (default_format_is_accepted "application/vnd.google-apps.document"
           "notes" None eq_refl).
Defined.

(** ** updater.ts: version comparison *)

Lemma compare_parts_swap {number : Type} (lt : number -> number -> bool)
      (l1 l2 : list number) (i n : nat) :
  (forall a b, lt a b = true -> lt b a = false) ->
  compare_parts lt l1 l2 i n = (- compare_parts lt l2 l1 i n)%Z.
Proof.
  intros Asym. revert i. induction n as [| n IH]; intros i; simpl;
    [reflexivity |].
  destruct (part_lt lt (nth_error l1 i) (nth_error l2 i)) eqn:A;
    destruct (part_lt lt (nth_error l2 i) (nth_error l1 i)) eqn:B;
    try reflexivity; [| apply IH].
  exfalso. unfold part_lt in A, B.
  destruct (nth_error l1 i), (nth_error l2 i); try discriminate.
  rewrite (Asym _ _ A) in B. discriminate.
Qed.

(** X24.  [compareVersions] is antisymmetric: swapping the two versions
    negates the result, for every conversion of the components and
    every order of numbers in which [a < b] and [b < a] never hold
    together.  Hence a version compared with itself gives 0, and an
    update is never found in both directions. *)
Theorem compareVersions_antisymmetric {number : Type}
        (Number : string -> number) (lt : number -> number -> bool)
        (current latest : string) :
  (forall a b, lt a b = true -> lt b a = false) ->
  compareVersions Number lt current latest
  = (- compareVersions Number lt latest current)%Z
  /\ compareVersions Number lt current current = 0%Z
  /\ ((compareVersions Number lt current latest > 0)%Z ->
      ~ (compareVersions Number lt latest current > 0)%Z).
Proof.
  intros Asym. unfold compareVersions.
  split; [now apply compare_parts_swap |]. split.
  - pose proof (compare_parts_swap lt
                  (map Number (split_dot (strip_v current)))
                  (map Number (split_dot (strip_v current))) 0 3 Asym).
    lia.
  - rewrite (compare_parts_swap lt
               (map Number (split_dot (strip_v current)))
               (map Number (split_dot (strip_v latest))) 0 3 Asym).
    lia.
Qed.

Lemma compareVersions_antisymmetric_witness :
  compareVersions Number_of_digits lt_or_NaN "0.1.1" "v0.10.0"
  = (- compareVersions Number_of_digits lt_or_NaN "v0.10.0" "0.1.1")%Z.
Proof.
  apply (compareVersions_antisymmetric Number_of_digits lt_or_NaN
           "0.1.1" "v0.10.0").
  intros [a |] [b |]; simpl; try discriminate.
  intros H. apply Z.ltb_lt in H. apply Z.ltb_ge. lia.
Defined.

(** ** drive.ts: comments *)

Lemma author_name_not_empty (a : option Comments.api_author) :
  truthy (Comments.author_name a) = true.
Proof.
  unfold Comments.author_name, or_else.
  destruct a as [[[n |] e] |]; simpl; try reflexivity.
  destruct (truthy n) eqn:T; [exact T | reflexivity].
Qed.

(** X25.  [listComments] hides resolved comments unless
    [includeResolved] is set: without it no returned comment is
    resolved and the unresolved ones come back one for one in their
    order; with it every comment comes back.  In both cases every
    returned comment and reply has a non-empty author name. *)
Theorem listComments_hides_resolved (comments : list Comments.api_comment)
        (includeResolved : option bool) :
  let result := Comments.listComments (Some comments) includeResolved in
  (Comments.is_true includeResolved = false ->
   Forall (fun c => Comments.c_resolved c = false) result
   /\ map Comments.c_id result
      = map Comments.id
            (filter (fun c => negb (Comments.is_true (Comments.resolved c)))
                    comments))
  /\ (Comments.is_true includeResolved = true ->
      map Comments.c_id result = map Comments.id comments)
  /\ Forall (fun c =>
               truthy (Comments.c_author c) = true
               /\ Forall (fun r => truthy (Comments.r_author r) = true)
                         (Comments.c_replies c))
            result.
Proof.
  cbv zeta. unfold Comments.listComments. split; [| split].
  - intros I. rewrite I. split.
    + apply Forall_map. apply Forall_forall. intros c H.
      apply filter_In in H. destruct H as [_ H]. simpl.
      now apply negb_true_iff in H.
    + now rewrite map_map.
  - intros I. rewrite I. now rewrite map_map.
  - apply Forall_map. apply Forall_forall. intros c _. simpl. split.
    + apply author_name_not_empty.
    + apply Forall_map. apply Forall_forall. intros r _. simpl.
      apply author_name_not_empty.
Qed.

Lemma listComments_hides_resolved_witness :
  Forall (fun c => Comments.c_resolved c = false)
         (Comments.listComments (Some [open_comment; resolved_comment]) None).
Proof.
  apply (proj1 (listComments_hides_resolved [open_comment; resolved_comment]
                  None)).
  reflexivity.
Defined.

(** ** A store file that cannot be read *)


